(** * Service-Worker.js: request routing, caching strategies and cache lifecycle

    A shallow embedding of [src/Service-Worker.js].  The worker's three event
    listeners ([install], [activate], [fetch]) and its three named strategies
    ([networkFirstNavigation], [staleWhileRevalidate], [cacheFirst]) are
    translated statement by statement into a small state-and-exception monad
    over a [World] that holds the browser's cache storage and a log of the
    network fetches performed.

    Asynchrony is sequentialised: one handler is run in isolation and every
    promise reaction runs in the order the program creates it.  A promise that
    the program builds but does not await is a first-class [value] carrying
    its settlement, so that JavaScript's truthiness of promise objects is
    visible in the model. *)

From Stdlib Require Import String Ascii List Bool Arith Lia.
From stdpp Require Import base option list gmap strings fin_maps.

Local Open Scope string_scope.
Local Open Scope list_scope.

(** ** Requests, responses and JavaScript values *)

Record URL := mkURL {
  origin : string;      (* scheme + host + port *)
  pathname : string;    (* path, without query or fragment *)
  search : string       (* query string, with its leading question mark *)
}.

Record Request := mkRequest {
  method : string;
  mode : string;
  url : URL
}.

Record Response := mkResponse {
  status : nat;
  headers : list (string * string);
  body : string
}.

(** [res.clone()]: a second response object with the same contents. *)
Definition clone (r : Response) : Response :=
  {| status := status r; headers := headers r; body := body r |}.

(** The identity under which a request is stored: its absolute URL. *)
Definition href (u : URL) : string := origin u +:+ pathname u +:+ search u.

(** What a promise can be rejected with: the transport error of [fetch]. *)
Inductive error := NetworkFailure.

Inductive result (A : Type) :=
| Val (a : A)
| Exn (e : error).
Arguments Val {A} a.
Arguments Exn {A} e.

(** The JavaScript values the worker manipulates.  A promise carries the
    settlement it reaches once its reactions have run. *)
#[warnings="-register-all"] Inductive value :=
| Undefined
| Null
| Bool (b : bool)
| Resp (r : Response)
| PromiseOf (settled : result value).

(** How a settled promise is seen: fulfilled with a value or rejected. *)
Abbreviation outcome := (result value).

(** JavaScript truthiness: [undefined] and [null] are falsy, every object
    (a response, a promise whatever its state) is truthy. *)
Definition truthy (v : value) : bool :=
  match v with
  | Undefined | Null => false
  | Bool b => b
  | Resp _ | PromiseOf _ => true
  end.

(** Resolving a promise with [v]: a promise is adopted (its settlement
    becomes ours), any other value fulfils directly. *)
Fixpoint resolve (v : value) : outcome :=
  match v with
  | PromiseOf (Val v') => resolve v'
  | PromiseOf (Exn e) => Exn e
  | _ => Val v
  end.

(** ** Regular expressions (the fragment the router uses) *)

Inductive regex :=
| Lit (w : list ascii)          (* a literal run of characters *)
| Alt (r1 r2 : regex)           (* r1|r2 *)
| Cat (r1 r2 : regex)           (* r1 followed by r2 *)
| EndAnchor.                    (* $ without the m flag: end of input *)

(** Strip the literal [w] from the front of [s]. *)
Fixpoint strip (w s : list ascii) : option (list ascii) :=
  match w, s with
  | [], _ => Some s
  | _ :: _, [] => None
  | a :: w', b :: s' => if Ascii.eqb a b then strip w' s' else None
  end.

(** Backtracking matcher: match [r] at the front of [s], then run the
    continuation [k] on what is left. *)
Fixpoint rmatch (r : regex) (s : list ascii) (k : list ascii -> bool) : bool :=
  match r with
  | Lit w => match strip w s with Some s' => k s' | None => false end
  | Alt r1 r2 => rmatch r1 s k || rmatch r2 s k
  | Cat r1 r2 => rmatch r1 s (fun s' => rmatch r2 s' k)
  | EndAnchor => match s with [] => k [] | _ :: _ => false end
  end.

(** [RegExp.prototype.test]: an unanchored search, trying every start
    position from left to right. *)
Fixpoint search_from (r : regex) (s : list ascii) : bool :=
  rmatch r s (fun _ => true) ||
  match s with
  | [] => false
  | _ :: s' => search_from r s'
  end.

Definition chars (s : string) : list ascii := list_ascii_of_string s.

Definition test (r : regex) (s : string) : bool := search_from r (chars s).

Definition alts (ws : list string) : regex :=
  match ws with
  | [] => Lit []
  | w :: ws' => fold_left (fun r w' => Alt r (Lit (chars w'))) ws' (Lit (chars w))
  end.

(** [/\.(?:css|js)$/] *)
Definition re_css_js : regex :=
  Cat (Lit (chars ".")) (Cat (alts ["css"; "js"]) EndAnchor).

(** [/\.(?:png|jpg|jpeg|gif|webp|svg|ico)$/] *)
Definition re_image : regex :=
  Cat (Lit (chars "."))
      (Cat (alts ["png"; "jpg"; "jpeg"; "gif"; "webp"; "svg"; "ico"]) EndAnchor).

(** ** The world: cache storage and network *)

(** Cache storage keeps its named caches in creation order, which is the
    order [caches.keys()] lists them in and [caches.match] searches them in. *)
Definition CacheStorage := list (string * gmap string Response).

Record World := mkWorld {
  storage : CacheStorage;
  fetch_log : list Request;       (* every call of the network transport *)
  skip_waiting : bool;            (* self.skipWaiting() was called *)
  clients_claimed : bool          (* self.clients.claim() was called *)
}.

Definition with_storage (st : CacheStorage) (w : World) : World :=
  {| storage := st; fetch_log := fetch_log w;
     skip_waiting := skip_waiting w; clients_claimed := clients_claimed w |}.

(** The network transport: what the [n]-th call of [fetch] (counting from 0)
    answers for a request; [None] is a transport failure. *)
Definition Network := nat -> Request -> option Response.

(** ** Computations: state plus exceptions *)

Definition JS (A : Type) : Type := World -> result A * World.

#[global] Instance JS_ret : MRet JS := fun A a w => (Val a, w).

#[global] Instance JS_bind : MBind JS := fun A B f m w =>
  match m w with
  | (Val a, w') => f a w'
  | (Exn e, w') => (Exn e, w')
  end.

Definition throw {A} (e : error) : JS A := fun w => (Exn e, w).

(** [m.catch(h)], and [try { m } catch (err) { h }]. *)
Definition catch {A} (m : JS A) (h : error -> JS A) : JS A := fun w =>
  match m w with
  | (Val a, w') => (Val a, w')
  | (Exn e, w') => h e w'
  end.

(** Run [m] and hand back how it ended, without raising. *)
Definition attempt {A} (m : JS A) : JS (result A) := fun w =>
  let '(r, w') := m w in (Val r, w').

Definition settlement (r : outcome) : outcome :=
  match r with
  | Val v => resolve v
  | Exn e => Exn e
  end.

(** A promise for [m] that the program holds without awaiting it. *)
Definition promise (m : JS value) : JS value :=
  r ← attempt m; mret (PromiseOf (settlement r)).

(** The promise an async function (or a promise chain) hands to
    [event.respondWith] or [event.waitUntil], as settled. *)
Definition settle (m : JS value) (w : World) : outcome * World :=
  let '(r, w') := m w in (settlement r, w').

(** [a || b]: [b] is evaluated only when [a] is falsy. *)
Definition js_or (a : value) (b : JS value) : JS value :=
  if truthy a then mret a else b.

(** [Promise.all] over calls made in list order: every call is started; the
    result is the list of values, or the first rejection. *)
Fixpoint collect (rs : list outcome) : result (list value) :=
  match rs with
  | [] => Val []
  | Val v :: rs' =>
      match collect rs' with
      | Val vs => Val (v :: vs)
      | Exn e => Exn e
      end
  | Exn e :: _ => Exn e
  end.

Fixpoint start_all (ms : list (JS value)) : JS (list outcome) :=
  match ms with
  | [] => mret []
  | m :: ms' => r ← attempt m; rs ← start_all ms'; mret (settlement r :: rs)
  end.

Definition promise_all (ms : list (JS value)) : JS (list value) :=
  rs ← start_all ms;
  match collect rs with
  | Val vs => mret vs
  | Exn e => throw e
  end.

(** ** The platform interfaces the worker calls *)

Fixpoint lookup_store (name : string) (st : CacheStorage) : option (gmap string Response) :=
  match st with
  | [] => None
  | (n, c) :: st' => if String.eqb n name then Some c else lookup_store name st'
  end.

Fixpoint update_store (name : string) (f : gmap string Response -> gmap string Response)
    (st : CacheStorage) : CacheStorage :=
  match st with
  | [] => []
  | (n, c) :: st' =>
      if String.eqb n name then (n, f c) :: st' else (n, c) :: update_store name f st'
  end.

(** The entry of one named store. *)
Definition store_entry (name key : string) (st : CacheStorage) : option Response :=
  c ← lookup_store name st; c !! key.

(** The first entry for a key, searching the stores in creation order. *)
Fixpoint storage_match (key : string) (st : CacheStorage) : option Response :=
  match st with
  | [] => None
  | (_, c) :: st' =>
      match c !! key with
      | Some r => Some r
      | None => storage_match key st'
      end
  end.

Definition found (o : option Response) : value :=
  match o with
  | Some r => Resp r
  | None => Undefined
  end.

(** Modelled from the spec: the Cache Store API of the browser, which is not
    part of the repository ([open], [get], [put], [listStoreNames],
    [deleteStore] of the external interfaces).  [open] creates the store on
    first use; a handle is the store's name; a lookup of an absent key is the
    normal result [undefined]; [put] overwrites. *)
Definition caches_open (name : string) : JS string := fun w =>
  match lookup_store name (storage w) with
  | Some _ => (Val name, w)
  | None => (Val name, with_storage (storage w ++ [(name, ∅)]) w)
  end.

(** Modelled from the spec: [store.get(key)], an entry or absent. *)
Definition cache_match (cache key : string) : JS value := fun w =>
  (Val (found (store_entry cache key (storage w))), w).

(** Modelled from the spec: [store.put(key, response)]; a handle whose store
    has been deleted writes nowhere. *)
Definition cache_put (cache key : string) (r : Response) : JS value := fun w =>
  (Val Undefined, with_storage (update_store cache (fun c => <[key := r]> c) (storage w)) w).

(** Modelled from the spec: [caches.match(key)], the lookup over all the
    stores. *)
Definition caches_match (key : string) : JS value := fun w =>
  (Val (found (storage_match key (storage w))), w).

(** Modelled from the spec: [listStoreNames()]. *)
Definition caches_keys : JS (list string) := fun w =>
  (Val (map fst (storage w)), w).

(** Modelled from the spec: [deleteStore(name)], answering whether the store
    existed. *)
Definition caches_delete (name : string) : JS value := fun w =>
  (Val (Bool (bool_decide (is_Some (lookup_store name (storage w))))),
   with_storage (List.filter (fun p => negb (String.eqb (fst p) name)) (storage w)) w).

(** Modelled from the spec: the two requests to the host runtime, recorded
    as flags. *)
Definition skipWaiting : JS value := fun w =>
  (Val Undefined,
   {| storage := storage w; fetch_log := fetch_log w;
      skip_waiting := true; clients_claimed := clients_claimed w |}).

Definition clients_claim : JS value := fun w =>
  (Val Undefined,
   {| storage := storage w; fetch_log := fetch_log w;
      skip_waiting := skip_waiting w; clients_claimed := true |}).

(** What the page that issued the request sees of [event.respondWith(p)]: the
    response [p] is fulfilled with; a rejected [p], or one fulfilled with
    anything that is not a response, is a network error for the page. *)
Inductive served :=
| Served (r : Response)
| NetworkError.

Definition respondWith (p : outcome) : served :=
  match p with
  | Val (Resp r) => Served r
  | _ => NetworkError
  end.

(** The four handling strategies; the last one is the inline default
    expression of the fetch listener. *)
Inductive strategy :=
| NetworkFirstNavigation
| StaleWhileRevalidate
| CacheFirst
| NetworkWithCacheFallback.

Section Worker.

(** [self.origin], and the network the worker runs against. *)
Variable self_origin : string.
Variable net : Network.

(** Modelled from the spec: the network transport [fetch(request)], answering
    a response or failing; each call is recorded. *)
Definition fetch (req : Request) : JS Response := fun w =>
  let w' := {| storage := storage w; fetch_log := fetch_log w ++ [req];
               skip_waiting := skip_waiting w;
               clients_claimed := clients_claimed w |} in
  match net (length (fetch_log w)) req with
  | Some r => (Val r, w')
  | None => (Exn NetworkFailure, w')
  end.

(** A path given where a request is expected is resolved against the
    worker's own origin and fetched with GET. *)
Definition resolve_path (p : string) : URL :=
  {| origin := self_origin; pathname := p; search := "" |}.

Definition request_of_path (p : string) : Request :=
  {| method := "GET"; mode := "cors"; url := resolve_path p |}.

Definition key_of_path (p : string) : string := href (resolve_path p).

Definition key_of (req : Request) : string := href (url req).

Fixpoint put_all (cache : string) (kvs : list (string * value)) : JS value :=
  match kvs with
  | [] => mret Undefined
  | (k, Resp r) :: kvs' => _ ← cache_put cache k r; put_all cache kvs'
  | (_, _) :: kvs' => put_all cache kvs'
  end.

(** Modelled from the spec: [cache.addAll(paths)] of the platform, which is
    not part of the repository.  Every path is fetched; a failure of any
    single fetch fails the whole call; the responses are written once all
    fetches have answered. *)
Definition cache_addAll (cache : string) (paths : list string) : JS value :=
  rs ← promise_all (map (fun p => r ← fetch (request_of_path p); mret (Resp r)) paths);
  put_all cache (combine (map key_of_path paths) rs).

(** *** The worker *)

Definition CACHE_NAME : string := "awc-cache-v2".
Definition ENTRY_HTML : string := "/index.html".

Definition PRECACHE_ASSETS : list string :=
  [ "/";
    ENTRY_HTML;
    "/manifest.json";
    "/icons/icon-192.png";
    "/icons/icon-512.png";
    "/icons/apple-touch-icon-180.png" ].

(** The install listener; the result is the promise given to
    [event.waitUntil], as settled. *)
Definition install (w : World) : outcome * World :=
  let '(_, w1) := skipWaiting w in
  settle (cache ← caches_open CACHE_NAME; cache_addAll cache PRECACHE_ASSETS) w1.

(** The activate listener. *)
Definition activate : World -> outcome * World :=
  settle (
    keys ← caches_keys;
    _ ← promise_all
          (map (fun k => if negb (String.eqb k CACHE_NAME)
                         then caches_delete k else mret Null) keys);
    _ ← clients_claim;
    mret Undefined).

Definition dq : string := String "034"%char EmptyString.

(** The response synthesised when a navigation can be answered neither by
    the network nor by the cache; [new Response(body, init)] without a
    status has status 200. *)
Definition offline_document : Response :=
  {| status := 200;
     headers := [("Content-Type", "text/html; charset=utf-8")];
     body :=
       "<!doctype html><html><head><meta charset=" +:+ dq +:+ "utf-8" +:+ dq +:+
       "><title>Offline</title><meta name=" +:+ dq +:+ "viewport" +:+ dq +:+
       " content=" +:+ dq +:+ "width=device-width, initial-scale=1" +:+ dq +:+
       "/></head><body><h1>Offline</h1><p>The app is unavailable offline for this page.</p></body></html>" |}.

Definition networkFirstNavigation (request : Request) : JS value :=
  catch
    (fresh ← fetch request;
     cache ← caches_open CACHE_NAME;
     _ ← promise (cache_put cache (key_of_path ENTRY_HTML) (clone fresh));
     mret (Resp fresh))
    (fun err =>
       entry ← caches_match (key_of_path ENTRY_HTML);
       cached ← js_or entry (caches_match (key_of_path "/"));
       js_or cached (mret (Resp offline_document))).

Definition staleWhileRevalidate (request : Request) : JS value :=
  cache ← caches_open CACHE_NAME;
  cached ← cache_match cache (key_of request);
  networkPromise ←
    promise
      (catch
         (res ← fetch request;
          _ ← promise (cache_put cache (key_of request) (clone res));
          mret (Resp res))
         (fun _ => mret Undefined));
  first ← js_or cached (mret networkPromise);
  js_or first (promise (res ← fetch request; mret (Resp res))).

Definition cacheFirst (request : Request) : JS value :=
  cache ← caches_open CACHE_NAME;
  cached ← cache_match cache (key_of request);
  if truthy cached then mret cached else
  res ← fetch request;
  _ ← promise (cache_put cache (key_of request) (clone res));
  mret (Resp res).

(** The default branch: [fetch(req).catch(() => caches.match(req))]. *)
Definition networkWithCacheFallback (req : Request) : JS value :=
  catch (res ← fetch req; mret (Resp res))
        (fun _ => caches_match (key_of req)).

(** One call of [event.respondWith]: the strategy that produced the promise
    and the promise as settled. *)
Definition respond (s : strategy) (p : JS value) (w : World)
    : list (strategy * outcome) * World :=
  let '(o, w') := settle p w in ([(s, o)], w').

(** The fetch listener.  The result lists the calls of [event.respondWith]
    the listener made; an empty list leaves the request to the browser. *)
Definition on_fetch (req : Request) (w : World) : list (strategy * outcome) * World :=
  let u := url req in
  if negb (String.eqb (method req) "GET") then ([], w)
  else if String.eqb (mode req) "navigate" then
    respond NetworkFirstNavigation (networkFirstNavigation req) w
  else
    let default := respond NetworkWithCacheFallback (networkWithCacheFallback req) in
    if String.eqb (origin u) self_origin then
      if test re_css_js (pathname u) then
        respond StaleWhileRevalidate (staleWhileRevalidate req) w
      else if test re_image (pathname u) then
        respond CacheFirst (cacheFirst req) w
      else default w
    else default w.

End Worker.

(** ** The routing table, as the specification words it *)

(** [s] ends in [suffix], compared character by character (case matters). *)
Definition ends_with (suffix s : string) : bool :=
  bool_decide (chars suffix `suffix_of` chars s).

Definition stylesheet_or_script (path : string) : bool :=
  ends_with ".css" path || ends_with ".js" path.

Definition known_image (path : string) : bool :=
  ends_with ".png" path || ends_with ".jpg" path || ends_with ".jpeg" path ||
  ends_with ".gif" path || ends_with ".webp" path || ends_with ".svg" path ||
  ends_with ".ico" path.

(** The classification order of the specification, first match wins;
    [None] is a request the worker does not intercept. *)
Definition router_spec (self_origin : string) (req : Request) : option strategy :=
  if bool_decide (method req ≠ "GET") then None
  else if bool_decide (mode req = "navigate") then Some NetworkFirstNavigation
  else if bool_decide (origin (url req) = self_origin)
          && stylesheet_or_script (pathname (url req))
  then Some StaleWhileRevalidate
  else if bool_decide (origin (url req) = self_origin)
          && known_image (pathname (url req))
  then Some CacheFirst
  else Some NetworkWithCacheFallback.

(** The code each strategy names. *)
Definition strategy_body (self_origin : string) (net : Network) (s : strategy)
    : Request -> JS value :=
  match s with
  | NetworkFirstNavigation => networkFirstNavigation self_origin net
  | StaleWhileRevalidate => staleWhileRevalidate net
  | CacheFirst => cacheFirst net
  | NetworkWithCacheFallback => networkWithCacheFallback net
  end.

(** What a regular expression denotes: [den r a rest] says that [r] matches
    the characters [a] when [rest] is what follows them. *)
Fixpoint den (r : regex) (a rest : list ascii) : Prop :=
  match r with
  | Lit w => a = w
  | Alt r1 r2 => den r1 a rest \/ den r2 a rest
  | Cat r1 r2 => exists a1 a2, a = a1 ++ a2 /\ den r1 a1 (a2 ++ rest) /\ den r2 a2 rest
  | EndAnchor => a = [] /\ rest = []
  end.

(** ** Sample requests, worlds and networks *)

Definition app_origin : string := "https://app.example".

Definition get (md path : string) : Request :=
  {| method := "GET"; mode := md;
     url := {| origin := app_origin; pathname := path; search := "" |} |}.

Definition navigation : Request := get "navigate" "/about".
Definition script_request : Request := get "no-cors" "/app.js".
Definition image_request : Request := get "no-cors" "/icons/logo.png".
Definition data_request : Request := get "cors" "/api/items".

Definition page (text : string) : Response :=
  {| status := 200; headers := []; body := text |}.

Definition server_error : Response :=
  {| status := 500; headers := []; body := "Internal Server Error" |}.

Definition empty_world : World :=
  {| storage := []; fetch_log := []; skip_waiting := false; clients_claimed := false |}.

(** A world whose current store holds one entry. *)
Definition cached_world (key : string) (r : Response) : World :=
  {| storage := [(CACHE_NAME, {[ key := r ]})]; fetch_log := [];
     skip_waiting := false; clients_claimed := false |}.

(** No connectivity at all. *)
Definition offline : Network := fun _ _ => None.

(** The first call fails, every later call is answered. *)
Definition flaky : Network := fun n _ =>
  match n with
  | 0 => None
  | S _ => Some (page "fresh")
  end.

(** Every call is answered by [r]. *)
Definition always (r : Response) : Network := fun _ _ => Some r.

(** ** What installation is compared with *)

(** The world after the requests [reqs] have been fetched, in this order. *)
Definition logged (reqs : list Request) (w : World) : World :=
  {| storage := storage w; fetch_log := fetch_log w ++ reqs;
     skip_waiting := skip_waiting w; clients_claimed := clients_claimed w |}.

(** The answers of the network to the fetches of [paths], made one after the
    other from call number [n] on. *)
Fixpoint answers (self_origin : string) (net : Network) (n : nat) (paths : list string)
    : list (option Response) :=
  match paths with
  | [] => []
  | p :: paths' =>
      net n (request_of_path self_origin p) :: answers self_origin net (S n) paths'
  end.

(** How a fetch with the answer [a] ends. *)
Definition as_outcome (a : option Response) : outcome :=
  match a with
  | Some r => Val (Resp r)
  | None => Exn NetworkFailure
  end.

(** The responses, when every fetch was answered. *)
Fixpoint all_answered (l : list (option Response)) : option (list Response) :=
  match l with
  | [] => Some []
  | Some r :: l' =>
      match all_answered l' with
      | Some rs => Some (r :: rs)
      | None => None
      end
  | None :: _ => None
  end.

(** The response last written under [key] by a run of writes. *)
Fixpoint last_written (key : string) (kvs : list (string * Response)) : option Response :=
  match kvs with
  | [] => None
  | (k, r) :: kvs' =>
      match last_written key kvs' with
      | Some r' => Some r'
      | None => if String.eqb k key then Some r else None
      end
  end.


(** ** What activation is compared with *)

(** The world once the activate listener has run: the stores of another name
    than the current one are gone and the clients are claimed. *)
Definition activated (w : World) : World :=
  {| storage := List.filter (fun p => String.eqb (fst p) CACHE_NAME) (storage w);
     fetch_log := fetch_log w;
     skip_waiting := skip_waiting w;
     clients_claimed := true |}.

(** * Properties *)

(** ** Regular expressions *)

Lemma strip_spec (w s s' : list ascii) : strip w s = Some s' <-> s = w ++ s'.
Proof.
  revert s; induction w as [|a w IH]; intros s; simpl.
  - split; [intros [= ->] | intros ->]; reflexivity.
  - destruct s as [|b s]; [split; discriminate|].
    destruct (Ascii.eqb_spec a b) as [->|Hne].
    + rewrite IH. split; [intros -> | intros [= ->]]; reflexivity.
    + split; [discriminate | intros [= Hb _]; congruence].
Qed.

Lemma rmatch_den (r : regex) : forall s k,
  rmatch r s k = true <->
  exists a rest, s = a ++ rest /\ den r a rest /\ k rest = true.
Proof.
  induction r as [w | r1 IH1 r2 IH2 | r1 IH1 r2 IH2 |]; intros s k; simpl.
  - destruct (strip w s) as [s'|] eqn:E.
    + apply strip_spec in E. subst s. split.
      * intros Hk. exists w, s'. auto.
      * intros (a & rest & Heq & -> & Hk).
        apply app_inv_head in Heq. subst. exact Hk.
    + split; [discriminate|].
      intros (a & rest & Heq & -> & _).
      assert (strip w s = Some rest) as E' by (apply strip_spec; exact Heq).
      congruence.
  - rewrite orb_true_iff, IH1, IH2. split.
    + intros [(a & rest & ? & ? & ?) | (a & rest & ? & ? & ?)];
        exists a, rest; auto.
    + intros (a & rest & ? & [?|?] & ?); [left | right]; exists a, rest; auto.
  - rewrite IH1. split.
    + intros (a1 & rest1 & -> & H1 & H2). apply IH2 in H2.
      destruct H2 as (a2 & rest & -> & H2 & Hk).
      exists (a1 ++ a2), rest. rewrite <- app_assoc. split; [reflexivity|].
      split; [|exact Hk]. exists a1, a2. auto.
    + intros (a & rest & -> & (a1 & a2 & -> & H1 & H2) & Hk).
      exists a1, (a2 ++ rest). rewrite <- app_assoc. split; [reflexivity|].
      split; [exact H1|]. apply IH2. exists a2, rest. auto.
  - destruct s as [|c s].
    + split.
      * intros Hk. exists [], []. auto.
      * intros (a & rest & _ & [-> ->] & Hk). exact Hk.
    + split; [discriminate|].
      intros (a & rest & Heq & [-> ->] & _). discriminate.
Qed.

Lemma search_from_spec (r : regex) (s : list ascii) :
  search_from r s = true <->
  exists p q, s = p ++ q /\ rmatch r q (fun _ => true) = true.
Proof.
  induction s as [|c s IH]; simpl; rewrite orb_true_iff.
  - split.
    + intros [H|H]; [|discriminate]. exists [], []. auto.
    + intros (p & q & Heq & H). left.
      symmetry in Heq. apply app_eq_nil in Heq. destruct Heq as [_ ->]. exact H.
  - rewrite IH. split.
    + intros [H | (p & q & -> & H)].
      * exists [], (c :: s). auto.
      * exists (c :: p), q. auto.
    + intros (p & q & Heq & H). destruct p as [|c' p]; simpl in Heq.
      * left. subst q. exact H.
      * right. injection Heq as -> ->. exists p, q. auto.
Qed.

Lemma den_alts_fold (ws : list string) : forall r0 a rest,
  den (fold_left (fun r w' => Alt r (Lit (chars w'))) ws r0) a rest <->
  den r0 a rest \/ exists w, In w ws /\ a = chars w.
Proof.
  induction ws as [|w ws IH]; intros r0 a rest; simpl.
  - split; [auto | intros [H | (w & [] & _)]; exact H].
  - rewrite IH. simpl. split.
    + intros [[H | ->] | (w' & Hin & ->)]; eauto.
    + intros [H | (w' & [<- | Hin] & ->)]; eauto.
Qed.

Lemma den_alts (w : string) (ws : list string) (a rest : list ascii) :
  den (alts (w :: ws)) a rest <-> exists w', In w' (w :: ws) /\ a = chars w'.
Proof.
  unfold alts. rewrite den_alts_fold. simpl. split.
  - intros [-> | (w' & Hin & ->)]; eauto.
  - intros (w' & [<- | Hin] & ->); eauto.
Qed.

(** A search for [\.(?:w1|...|wn)$] succeeds exactly on the strings that end
    in a dot followed by one of the words. *)
Lemma test_extension (w : string) (ws : list string) (s : string) :
  test (Cat (Lit (chars ".")) (Cat (alts (w :: ws)) EndAnchor)) s = true <->
  exists w', In w' (w :: ws) /\ chars ("." +:+ w') `suffix_of` chars s.
Proof.
  unfold test. rewrite search_from_spec. split.
  - intros (p & q & Heq & H). apply rmatch_den in H.
    destruct H as (a & rest & -> & Hden & _).
    destruct Hden as (a1 & a2 & -> & Hdot & a3 & a4 & -> & Halt & -> & ->).
    simpl in Hdot. subst a1. apply den_alts in Halt.
    destruct Halt as (w' & Hin & ->). exists w'. split; [exact Hin|].
    exists p. rewrite Heq. simpl. rewrite !app_nil_r. reflexivity.
  - intros (w' & Hin & p & Heq). exists p, (chars ("." +:+ w')).
    split; [exact Heq|]. apply rmatch_den.
    exists (chars ("." +:+ w')), []. rewrite app_nil_r.
    split; [reflexivity|]. split; [|reflexivity].
    exists (chars "."), (chars w'). split; [reflexivity|].
    split; [reflexivity|].
    exists (chars w'), []. rewrite app_nil_r. split; [reflexivity|].
    split; [|simpl; auto]. apply den_alts. eauto.
Qed.

Lemma test_re_css_js (path : string) :
  test re_css_js path = stylesheet_or_script path.
Proof.
  apply eq_true_iff_eq. unfold re_css_js, stylesheet_or_script, ends_with.
  rewrite test_extension, !orb_true_iff, !bool_decide_eq_true. simpl In.
  split.
  - intros (w & [<- | [<- | []]] & H); auto.
  - intros [H | H]; eauto 6.
Qed.

Lemma test_re_image (path : string) :
  test re_image path = known_image path.
Proof.
  apply eq_true_iff_eq. unfold re_image, known_image, ends_with.
  rewrite test_extension, !orb_true_iff, !bool_decide_eq_true. simpl In.
  split.
  - intros (w & Hin & H).
    repeat (destruct Hin as [<- | Hin]; [tauto|]). destruct Hin.
  - intros H.
    repeat (destruct H as [H | H]); eauto 12.
Qed.

(** ** The request router *)

Lemma respond_length (s : strategy) (p : JS value) (w : World) :
  length (fst (respond s p w)) = 1.
Proof. unfold respond. destruct (settle p w). reflexivity. Qed.

(** C1: the fetch listener does exactly what the classification order of the
    specification says.  A request whose method is not GET gets no call of
    [respondWith] and leaves the world as it was; every GET request gets one
    call, made with the strategy that the first matching rule names:
    navigation, then same-origin stylesheet or script suffix, then
    same-origin image suffix, then the default.  In no case is more than one
    strategy invoked. *)
Theorem on_fetch_routes (self_origin : string) (net : Network) (req : Request) (w : World) :
  on_fetch self_origin net req w =
    match router_spec self_origin req with
    | None => ([], w)
    | Some s => respond s (strategy_body self_origin net s req) w
    end
  /\ length (fst (on_fetch self_origin net req w)) <= 1.
Proof.
  assert (on_fetch self_origin net req w =
    match router_spec self_origin req with
    | None => ([], w)
    | Some s => respond s (strategy_body self_origin net s req) w
    end) as Hroute.
  { unfold on_fetch, router_spec.
    rewrite test_re_css_js, test_re_image.
    destruct (String.eqb_spec (method req) "GET") as [Hm | Hm]; simpl negb; cbv iota.
    - rewrite (bool_decide_eq_false_2 (method req ≠ "GET")) by (intros H; exact (H Hm)).
      destruct (String.eqb_spec (mode req) "navigate") as [Hn | Hn].
      + rewrite (bool_decide_eq_true_2 _ Hn). reflexivity.
      + rewrite (bool_decide_eq_false_2 _ Hn).
        destruct (String.eqb_spec (origin (url req)) self_origin) as [Ho | Ho].
        * rewrite (bool_decide_eq_true_2 _ Ho). simpl andb.
          destruct (stylesheet_or_script (pathname (url req))); [reflexivity|].
          destruct (known_image (pathname (url req))); reflexivity.
        * rewrite (bool_decide_eq_false_2 _ Ho). reflexivity.
    - rewrite (bool_decide_eq_true_2 _ Hm). reflexivity. }
  split; [exact Hroute|].
  rewrite Hroute. destruct (router_spec self_origin req) as [s|].
  - rewrite respond_length. lia.
  - simpl. lia.
Qed.

(** ** Cache storage *)

Lemma clone_eq (r : Response) : clone r = r.
Proof. destruct r; reflexivity. Qed.

Lemma lookup_store_app (name n : string) (c : gmap string Response) (st : CacheStorage) :
  lookup_store n (st ++ [(name, c)]) =
    match lookup_store n st with
    | Some c' => Some c'
    | None => if String.eqb name n then Some c else None
    end.
Proof.
  induction st as [|[m c'] st IH]; simpl; [reflexivity|].
  destruct (String.eqb m n); [reflexivity | exact IH].
Qed.

(** Creating an empty store adds no entry anywhere. *)
Lemma store_entry_app_empty (name n key : string) (st : CacheStorage) :
  store_entry n key (st ++ [(name, ∅)]) = store_entry n key st.
Proof.
  unfold store_entry. rewrite lookup_store_app.
  destruct (lookup_store n st); [reflexivity|].
  destruct (String.eqb name n); reflexivity.
Qed.

Lemma storage_match_app_empty (name key : string) (st : CacheStorage) :
  storage_match key (st ++ [(name, ∅)]) = storage_match key st.
Proof.
  induction st as [|[m c] st IH]; simpl; [reflexivity|].
  destruct (c !! key); [reflexivity | exact IH].
Qed.

Lemma lookup_store_update (name n : string) (f : gmap string Response -> gmap string Response)
    (st : CacheStorage) :
  lookup_store n (update_store name f st) =
    if String.eqb name n then f <$> lookup_store n st else lookup_store n st.
Proof.
  induction st as [|[m c] st IH]; simpl.
  - destruct (String.eqb name n); reflexivity.
  - destruct (String.eqb_spec m name) as [-> | Hm]; simpl.
    + destruct (String.eqb name n); reflexivity.
    + destruct (String.eqb_spec m n) as [-> | Hn].
      * destruct (String.eqb_spec name n) as [-> | _]; [congruence | reflexivity].
      * exact IH.
Qed.

(** A write into an existing store is visible under its key, and only there. *)
Lemma store_entry_put (name key n k : string) (r : Response) (st : CacheStorage) :
  is_Some (lookup_store name st) ->
  store_entry n k (update_store name (fun c => <[key := r]> c) st) =
    if bool_decide ((n, k) = (name, key)) then Some r else store_entry n k st.
Proof.
  intros [c Hc]. unfold store_entry. rewrite lookup_store_update.
  destruct (String.eqb_spec name n) as [<- | Hn].
  - rewrite Hc. simpl. case_bool_decide as Hk.
    + injection Hk as ->. apply lookup_insert_eq.
    + apply lookup_insert_ne. congruence.
  - rewrite bool_decide_eq_false_2 by congruence. reflexivity.
Qed.

(** [caches.open]: afterwards the store exists, and no entry has changed. *)
Lemma caches_open_spec (name : string) (w : World) :
  fst (caches_open name w) = Val name /\
  is_Some (lookup_store name (storage (snd (caches_open name w)))) /\
  fetch_log (snd (caches_open name w)) = fetch_log w /\
  (forall n k, store_entry n k (storage (snd (caches_open name w))) =
               store_entry n k (storage w)) /\
  (forall k, storage_match k (storage (snd (caches_open name w))) =
             storage_match k (storage w)).
Proof.
  unfold caches_open. destruct (lookup_store name (storage w)) as [c|] eqn:E; simpl.
  - rewrite E. eauto 10.
  - rewrite lookup_store_app, E, String.eqb_refl.
    split; [reflexivity|]. split; [eauto|]. split; [reflexivity|].
    split; intros; [apply store_entry_app_empty | apply storage_match_app_empty].
Qed.

(** ** The strategies *)

Ltac unfold_js :=
  unfold settle, respond, networkFirstNavigation, staleWhileRevalidate, cacheFirst,
    networkWithCacheFallback, promise, attempt, catch, throw, js_or, fetch,
    cache_match, cache_put, caches_match, mbind, JS_bind, mret, JS_ret in *.

(** Open the current store in the goal's world and name what is known of the
    world that results. *)
Ltac open_store w1 Hex Hlog Hent Hmatch :=
  match goal with
  | |- context [caches_open ?n ?w] =>
      let Hr := fresh "Hr" in
      let r := fresh "r" in
      pose proof (caches_open_spec n w) as (Hr & Hex & Hlog & Hent & Hmatch);
      destruct (caches_open n w) as [r w1];
      cbn [fst snd storage fetch_log] in Hr, Hex, Hlog, Hent, Hmatch; subst r
  end.

(** A navigation the network answers: the answer is returned, and written
    under the key of the entry document of the current store and nowhere
    else. *)
Lemma networkFirstNavigation_fresh (self_origin : string) (net : Network)
    (req : Request) (w : World) (fresh : Response) :
  net (length (fetch_log w)) req = Some fresh ->
  let run := settle (networkFirstNavigation self_origin net req) w in
  fst run = Val (Resp fresh) /\
  forall name key,
    store_entry name key (storage (snd run)) =
      if bool_decide ((name, key) = (CACHE_NAME, key_of_path self_origin ENTRY_HTML))
      then Some fresh else store_entry name key (storage w).
Proof.
  intros Hnet run. subst run. unfold_js. rewrite Hnet.
  open_store w1 Hex Hlog Hent Hmatch.
  cbn [fst snd storage with_storage settlement resolve]. rewrite clone_eq.
  split; [reflexivity|].
  intros name key. rewrite store_entry_put by exact Hex.
  case_bool_decide; [reflexivity | apply Hent].
Qed.

(** A navigation the network fails on: the first of the cached entry
    document, the cached root and the offline document is returned, and only
    the fetch log has changed. *)
Lemma networkFirstNavigation_fallback (self_origin : string) (net : Network)
    (req : Request) (w : World) :
  net (length (fetch_log w)) req = None ->
  let run := settle (networkFirstNavigation self_origin net req) w in
  fst run =
    Val (Resp
      match storage_match (key_of_path self_origin ENTRY_HTML) (storage w) with
      | Some entry => entry
      | None =>
          match storage_match (key_of_path self_origin "/") (storage w) with
          | Some root => root
          | None => offline_document
          end
      end) /\
  storage (snd run) = storage w.
Proof.
  intros Hnet run. subst run. unfold_js. rewrite Hnet.
  cbn [fst snd storage with_storage settlement resolve].
  destruct (storage_match (key_of_path self_origin ENTRY_HTML) (storage w)) as [entry|];
    cbn [found truthy fst snd storage settlement resolve];
    [|destruct (storage_match (key_of_path self_origin "/") (storage w)) as [root|]];
    cbn [found truthy fst snd storage settlement resolve];
    split; reflexivity.
Qed.

(** C2: when the network answers a navigation, [networkFirstNavigation]
    hands exactly that response to the caller and the current store holds it
    under the key of the entry document; no other entry of any store changes,
    so the literal URL of the request gets no entry of its own and all
    navigations share the one cached entry. *)
Theorem networkFirstNavigation_online (self_origin : string) (net : Network)
    (req : Request) (w : World) (fresh : Response) :
  net (length (fetch_log w)) req = Some fresh ->
  let run := settle (networkFirstNavigation self_origin net req) w in
  fst run = Val (Resp fresh) /\
  store_entry CACHE_NAME (key_of_path self_origin ENTRY_HTML) (storage (snd run)) = Some fresh /\
  (forall name key, (name, key) <> (CACHE_NAME, key_of_path self_origin ENTRY_HTML) ->
     store_entry name key (storage (snd run)) = store_entry name key (storage w)).
Proof.
  intros Hnet run.
  destruct (networkFirstNavigation_fresh self_origin net req w fresh Hnet) as [Hout Hstore].
  fold run in Hout, Hstore. split; [exact Hout|]. split.
  - rewrite Hstore, bool_decide_eq_true_2; reflexivity.
  - intros name key Hne. rewrite Hstore, bool_decide_eq_false_2; [reflexivity | exact Hne].
Qed.

(** C3: when the network fails on a navigation, [networkFirstNavigation]
    answers with the entry cached under the key of the entry document if
    there is one, else with the entry cached under the root path if there is
    one, else with the synthesised offline document: status 200, an HTML
    document whose text says the app is unavailable offline.  In each case
    the promise is fulfilled with a response (it never rejects), and the
    cache storage is left as it was. *)
Theorem networkFirstNavigation_offline (self_origin : string) (net : Network)
    (req : Request) (w : World) :
  net (length (fetch_log w)) req = None ->
  let run := settle (networkFirstNavigation self_origin net req) w in
  fst run =
    Val (Resp
      match storage_match (key_of_path self_origin ENTRY_HTML) (storage w) with
      | Some entry => entry
      | None =>
          match storage_match (key_of_path self_origin "/") (storage w) with
          | Some root => root
          | None => offline_document
          end
      end) /\
  storage (snd run) = storage w /\
  status offline_document = 200 /\
  String.prefix "<!doctype html>" (body offline_document) = true /\
  is_Some (String.index 0 "unavailable offline" (body offline_document)).
Proof.
  intros Hnet run.
  destruct (networkFirstNavigation_fallback self_origin net req w Hnet) as [Hout Hst].
  fold run in Hout, Hst.
  split; [exact Hout|]. split; [exact Hst|]. split; [reflexivity|].
  split; [vm_compute; reflexivity|]. vm_compute. eauto.
Qed.

Lemma caches_open_existing (name key : string) (w : World) (r : Response) :
  store_entry name key (storage w) = Some r ->
  caches_open name w = (Val name, w).
Proof.
  unfold store_entry, caches_open.
  destruct (lookup_store name (storage w)); [reflexivity | discriminate].
Qed.

(** A cache hit: the entry is the answer and the world is untouched. *)
Lemma cacheFirst_hit (net : Network) (req : Request) (w : World) (cached : Response) :
  store_entry CACHE_NAME (key_of req) (storage w) = Some cached ->
  settle (cacheFirst net req) w = (Val (Resp cached), w).
Proof.
  intros Hhit. unfold_js. rewrite (caches_open_existing _ _ _ _ Hhit), Hhit.
  reflexivity.
Qed.

(** A cache miss: one fetch; its response is stored and returned, its
    failure rejects. *)
Lemma cacheFirst_miss (net : Network) (req : Request) (w : World) :
  store_entry CACHE_NAME (key_of req) (storage w) = None ->
  let run := settle (cacheFirst net req) w in
  fetch_log (snd run) = fetch_log w ++ [req] /\
  match net (length (fetch_log w)) req with
  | Some res =>
      fst run = Val (Resp res) /\
      store_entry CACHE_NAME (key_of req) (storage (snd run)) = Some res
  | None => fst run = Exn NetworkFailure
  end.
Proof.
  intros Hmiss run. subst run. unfold_js.
  open_store w1 Hex Hlog Hent Hmatch.
  rewrite Hent, Hmiss. cbn [found truthy]. rewrite Hlog.
  destruct (net (length (fetch_log w)) req) as [res|];
    cbn [fst snd storage fetch_log with_storage settlement resolve].
  - rewrite ?Hlog, clone_eq, store_entry_put by exact Hex.
    rewrite bool_decide_eq_true_2 by reflexivity. auto.
  - rewrite ?Hlog. auto.
Qed.

(** [staleWhileRevalidate]: one fetch in every case.  A response of the
    network is stored under the request's key; the caller gets the cached
    entry if there was one and the response of the network otherwise. *)
Lemma staleWhileRevalidate_online (net : Network) (req : Request) (w : World)
    (res : Response) :
  net (length (fetch_log w)) req = Some res ->
  let run := settle (staleWhileRevalidate net req) w in
  fetch_log (snd run) = fetch_log w ++ [req] /\
  store_entry CACHE_NAME (key_of req) (storage (snd run)) = Some res /\
  fst run = Val (Resp (default res (store_entry CACHE_NAME (key_of req) (storage w)))).
Proof.
  intros Hnet run. subst run. unfold_js.
  open_store w1 Hex Hlog Hent Hmatch.
  rewrite Hent, Hlog, Hnet.
  destruct (store_entry CACHE_NAME (key_of req) (storage w)) as [cached|];
    cbn [found truthy fst snd storage fetch_log with_storage settlement resolve default];
    rewrite ?Hlog, clone_eq, store_entry_put by exact Hex;
    rewrite bool_decide_eq_true_2 by reflexivity; auto.
Qed.

(** When the network fails, the promise is fulfilled with the cached entry,
    or with [undefined] if there is none; the fetch is not repeated. *)
Lemma staleWhileRevalidate_offline (net : Network) (req : Request) (w : World) :
  net (length (fetch_log w)) req = None ->
  let run := settle (staleWhileRevalidate net req) w in
  fetch_log (snd run) = fetch_log w ++ [req] /\
  fst run = Val (found (store_entry CACHE_NAME (key_of req) (storage w))).
Proof.
  intros Hnet run. subst run. unfold_js.
  open_store w1 Hex Hlog Hent Hmatch.
  rewrite Hent, Hlog, Hnet.
  destruct (store_entry CACHE_NAME (key_of req) (storage w)) as [cached|];
    cbn [found truthy fst snd storage fetch_log with_storage settlement resolve];
    rewrite ?Hlog; auto.
Qed.

(** C4, at the input where the code and the claim part: a same-origin script
    request, nothing cached, and a network that fails once and would answer a
    second call.  The listener makes one fetch only and the promise given to
    [respondWith] is fulfilled with [undefined], which the page sees as a
    network error: the promise [networkPromise] is an object, hence truthy,
    so the operand [fetch(request)] after it is never evaluated. *)
Theorem staleWhileRevalidate_no_final_fetch :
  on_fetch app_origin flaky script_request empty_world =
    ([(StaleWhileRevalidate, Val Undefined)],
     {| storage := [(CACHE_NAME, ∅)]; fetch_log := [script_request];
        skip_waiting := false; clients_claimed := false |})
  /\ respondWith (Val Undefined) = NetworkError
  /\ flaky 1 script_request = Some (page "fresh").
Proof. vm_compute. auto. Qed.

(** C5: [cacheFirst] on a request the current store has an entry for returns
    that entry and makes no fetch at all; on a request it has no entry for it
    makes exactly one fetch, of this request, and the response of that fetch
    is both written into the current store under the request's key and
    returned (a failed fetch rejects). *)
Theorem cacheFirst_hit_or_miss (net : Network) (req : Request) (w : World) :
  let run := settle (cacheFirst net req) w in
  match store_entry CACHE_NAME (key_of req) (storage w) with
  | Some cached =>
      fst run = Val (Resp cached) /\ fetch_log (snd run) = fetch_log w
  | None =>
      fetch_log (snd run) = fetch_log w ++ [req] /\
      match net (length (fetch_log w)) req with
      | Some res =>
          fst run = Val (Resp res) /\
          store_entry CACHE_NAME (key_of req) (storage (snd run)) = Some res
      | None => fst run = Exn NetworkFailure
      end
  end.
Proof.
  intros run. subst run.
  destruct (store_entry CACHE_NAME (key_of req) (storage w)) as [cached|] eqn:E.
  - rewrite (cacheFirst_hit _ _ _ _ E). auto.
  - apply cacheFirst_miss. exact E.
Qed.

(** C6: the default strategy never writes to the cache storage.  The
    response of the network, when there is one, is the answer; when the
    network fails, the answer is the cached entry for the request, and when
    there is none either the page sees a failure. *)
Theorem networkWithCacheFallback_spec (net : Network) (req : Request) (w : World) :
  let run := settle (networkWithCacheFallback net req) w in
  storage (snd run) = storage w /\
  match net (length (fetch_log w)) req with
  | Some res => fst run = Val (Resp res)
  | None =>
      match storage_match (key_of req) (storage w) with
      | Some entry => fst run = Val (Resp entry)
      | None => respondWith (fst run) = NetworkError
      end
  end.
Proof.
  intros run. subst run. unfold_js.
  destruct (net (length (fetch_log w)) req) as [res|];
    cbn [fst snd storage settlement resolve]; [auto|].
  destruct (storage_match (key_of req) (storage w)) as [entry|];
    cbn [found fst snd storage settlement resolve respondWith]; auto.
Qed.

Lemma networkFirstNavigation_online_witness :
  always (page "about") (length (fetch_log empty_world)) navigation = Some (page "about") /\
  let run := settle (networkFirstNavigation app_origin (always (page "about")) navigation)
                    empty_world in
  fst run = Val (Resp (page "about")) /\
  store_entry CACHE_NAME (key_of_path app_origin ENTRY_HTML) (storage (snd run))
    = Some (page "about") /\
  (forall name key, (name, key) <> (CACHE_NAME, key_of_path app_origin ENTRY_HTML) ->
     store_entry name key (storage (snd run)) = store_entry name key (storage empty_world)).
Proof.
  split; [reflexivity|].
  apply (networkFirstNavigation_online app_origin (always (page "about")) navigation
           empty_world (page "about")).
  reflexivity.
Defined.

Lemma networkFirstNavigation_offline_witness :
  offline (length (fetch_log empty_world)) navigation = None /\
  fst (settle (networkFirstNavigation app_origin offline navigation) empty_world)
    = Val (Resp offline_document).
Proof.
  split; [reflexivity|].
  exact (proj1 (networkFirstNavigation_offline app_origin offline navigation empty_world
                  eq_refl)).
Defined.

(** C7, refuted as stated: an image request, nothing cached, no
    connectivity.  The listener hands the request to [cacheFirst], whose
    promise is rejected with the transport failure, and the page sees a
    network error. *)
Lemma cacheFirst_failure_reaches_caller :
  method image_request = "GET" /\
  router_spec app_origin image_request = Some CacheFirst /\
  offline (length (fetch_log empty_world)) image_request = None /\
  fst (on_fetch app_origin offline image_request empty_world)
    = [(CacheFirst, Exn NetworkFailure)] /\
  respondWith (Exn NetworkFailure) = NetworkError.
Proof. vm_compute. auto 6. Qed.

(** C7, amended: when the fetch of a request fails,
    [networkFirstNavigation] always answers the page with a response;
    [staleWhileRevalidate] and [cacheFirst] answer with the entry the current
    store holds for the request when there is one; when there is none, the
    failure of [cacheFirst] reaches the page, as the failure of the default
    strategy does when no store has an entry for the request. *)
Theorem transport_failure_recovery (self_origin : string) (net : Network)
    (req : Request) (w : World) :
  net (length (fetch_log w)) req = None ->
  let answer s := respondWith (fst (settle (strategy_body self_origin net s req) w)) in
  (exists r, answer NetworkFirstNavigation = Served r) /\
  match store_entry CACHE_NAME (key_of req) (storage w) with
  | Some cached =>
      answer StaleWhileRevalidate = Served cached /\
      answer CacheFirst = Served cached
  | None => answer CacheFirst = NetworkError
  end /\
  match storage_match (key_of req) (storage w) with
  | Some entry => answer NetworkWithCacheFallback = Served entry
  | None => answer NetworkWithCacheFallback = NetworkError
  end.
Proof.
  intros Hnet answer. subst answer. cbn [strategy_body]. split; [|split].
  - destruct (networkFirstNavigation_fallback self_origin net req w Hnet) as [-> _].
    cbn [respondWith]. eauto.
  - destruct (staleWhileRevalidate_offline net req w Hnet) as [_ Hswr].
    destruct (store_entry CACHE_NAME (key_of req) (storage w)) as [cached|] eqn:E.
    + rewrite Hswr, (cacheFirst_hit _ _ _ _ E). split; reflexivity.
    + destruct (cacheFirst_miss net req w E) as [_ Hcf]. rewrite Hnet in Hcf.
      rewrite Hcf. reflexivity.
  - unfold_js. rewrite Hnet. cbn [fst snd storage].
    destruct (storage_match (key_of req) (storage w)); reflexivity.
Qed.

Lemma transport_failure_recovery_witness :
  offline (length (fetch_log (cached_world (key_of image_request) (page "logo"))))
          image_request = None /\
  respondWith (fst (settle (cacheFirst offline image_request)
                      (cached_world (key_of image_request) (page "logo"))))
    = Served (page "logo").
Proof.
  split; [reflexivity|].
  pose proof (transport_failure_recovery app_origin offline image_request
                (cached_world (key_of image_request) (page "logo")) eq_refl) as H.
  cbv zeta in H. destruct H as (_ & H & _).
  change (store_entry CACHE_NAME (key_of image_request)
            (storage (cached_world (key_of image_request) (page "logo"))))
    with (Some (page "logo")) in H.
  exact (proj2 H).
Defined.

(** C10, refuted as stated: a script request whose entry is cached, and a
    network that answers every call with a 500 page.  The 500 page is written
    into the store, but what the caller gets is the entry cached before. *)
Lemma staleWhileRevalidate_returns_cached_not_fetched :
  let w := cached_world (key_of script_request) (page "old") in
  let run := settle (staleWhileRevalidate (always server_error) script_request) w in
  always server_error (length (fetch_log w)) script_request = Some server_error /\
  fst run = Val (Resp (page "old")) /\
  page "old" <> server_error /\
  store_entry CACHE_NAME (key_of script_request) (storage (snd run)) = Some server_error.
Proof.
  vm_compute. repeat split; try reflexivity. discriminate.
Qed.

(** C10, amended: no strategy looks at the status of the response the
    network gives, whatever it is.  [networkFirstNavigation] writes it under
    the key of the entry document and returns it; [staleWhileRevalidate]
    writes it under the request's key and returns it unless an entry was
    cached, which is then what it returns; [cacheFirst], which fetches only
    when nothing is cached, writes it under the request's key and returns it,
    and from then on answers with it without consulting the network. *)
Theorem responses_cached_whatever_status (self_origin : string) (net : Network)
    (req : Request) (w : World) (res : Response) :
  net (length (fetch_log w)) req = Some res ->
  let nav := settle (networkFirstNavigation self_origin net req) w in
  let swr := settle (staleWhileRevalidate net req) w in
  let img := settle (cacheFirst net req) w in
  (fst nav = Val (Resp res) /\
   store_entry CACHE_NAME (key_of_path self_origin ENTRY_HTML) (storage (snd nav)) = Some res) /\
  (store_entry CACHE_NAME (key_of req) (storage (snd swr)) = Some res /\
   fst swr = Val (Resp (default res (store_entry CACHE_NAME (key_of req) (storage w))))) /\
  match store_entry CACHE_NAME (key_of req) (storage w) with
  | Some cached => fst img = Val (Resp cached)
  | None =>
      fst img = Val (Resp res) /\
      store_entry CACHE_NAME (key_of req) (storage (snd img)) = Some res /\
      forall net', settle (cacheFirst net' req) (snd img) = (Val (Resp res), snd img)
  end.
Proof.
  intros Hnet nav swr img. split; [|split].
  - destruct (networkFirstNavigation_fresh self_origin net req w res Hnet) as [Hout Hstore].
    fold nav in Hout, Hstore. split; [exact Hout|].
    rewrite Hstore, bool_decide_eq_true_2; reflexivity.
  - destruct (staleWhileRevalidate_online net req w res Hnet) as (_ & Hstore & Hout).
    split; assumption.
  - destruct (store_entry CACHE_NAME (key_of req) (storage w)) as [cached|] eqn:E.
    + subst img. rewrite (cacheFirst_hit _ _ _ _ E). reflexivity.
    + destruct (cacheFirst_miss net req w E) as [_ Hcf]. fold img in Hcf.
      rewrite Hnet in Hcf. destruct Hcf as [Hout Hstore].
      split; [exact Hout|]. split; [exact Hstore|].
      intros net'. apply cacheFirst_hit. exact Hstore.
Qed.

Lemma responses_cached_whatever_status_witness :
  always server_error (length (fetch_log empty_world)) image_request = Some server_error /\
  status server_error = 500 /\
  let img := settle (cacheFirst (always server_error) image_request) empty_world in
  fst img = Val (Resp server_error) /\
  store_entry CACHE_NAME (key_of image_request) (storage (snd img)) = Some server_error /\
  forall net', settle (cacheFirst net' image_request) (snd img)
               = (Val (Resp server_error), snd img).
Proof.
  split; [reflexivity|]. split; [reflexivity|].
  exact (proj2 (proj2 (responses_cached_whatever_status app_origin (always server_error)
                         image_request empty_world server_error eq_refl))).
Defined.

(** ** The lifecycle: activation *)

Lemma with_storage_same (w : World) : with_storage (storage w) w = w.
Proof. destruct w; reflexivity. Qed.

Lemma with_storage_twice (a b : CacheStorage) (w : World) :
  with_storage a (with_storage b w) = with_storage a w.
Proof. reflexivity. Qed.

Lemma start_all_cons (m : JS value) (ms : list (JS value)) (w : World) :
  start_all (m :: ms) w =
    match start_all ms (snd (m w)) with
    | (Val rs, w') => (Val (settlement (fst (m w)) :: rs), w')
    | (Exn e, w') => (Exn e, w')
    end.
Proof.
  cbn [start_all]. unfold mbind, JS_bind, mret, JS_ret, attempt.
  destruct (m w) as [r w1]. cbn [fst snd].
  destruct (start_all ms w1) as [[rs|e] w2]; reflexivity.
Qed.

Lemma mret_run {A} (a : A) (w : World) : (mret a : JS A) w = (Val a, w).
Proof. reflexivity. Qed.

Lemma caches_delete_run (name : string) (w : World) :
  caches_delete name w =
    (Val (Bool (bool_decide (is_Some (lookup_store name (storage w))))),
     with_storage (List.filter (fun p => negb (String.eqb (fst p) name)) (storage w)) w).
Proof. reflexivity. Qed.

Lemma filter_all {A} (f : A -> bool) (l : list A) :
  (forall a, f a = true) -> List.filter f l = l.
Proof.
  intros Hf. induction l as [|a l IH]; simpl; [reflexivity|].
  rewrite Hf, IH. reflexivity.
Qed.

Lemma filter_twice {A} (f g : A -> bool) (l : list A) :
  List.filter f (List.filter g l) = List.filter (fun a => g a && f a) l.
Proof.
  induction l as [|a l IH]; simpl; [reflexivity|].
  destruct (g a); simpl; [destruct (f a)|]; rewrite ?IH; reflexivity.
Qed.

(** The deletions of the activate listener, over any list of names: what is
    left are the stores named like the current one and the stores whose name
    is not in the list; no deletion fails. *)
Lemma start_all_deletes (ks : list string) : forall w,
  exists rs vs,
    start_all (map (fun k => if negb (String.eqb k CACHE_NAME)
                             then caches_delete k else mret Null) ks) w =
      (Val rs,
       with_storage
         (List.filter (fun p => String.eqb (fst p) CACHE_NAME
                                || negb (existsb (String.eqb (fst p)) ks))
                      (storage w)) w)
    /\ collect rs = Val vs.
Proof.
  induction ks as [|k ks IH]; intros w.
  - exists [], []. split; [|reflexivity]. cbn [map start_all existsb].
    rewrite filter_all by (intros; apply orb_true_r).
    rewrite with_storage_same. reflexivity.
  - cbn [map]. rewrite start_all_cons.
    destruct (String.eqb_spec k CACHE_NAME) as [-> | Hk]; cbn [negb].
    + destruct (IH w) as (rs & vs & Hrun & Hcol).
      rewrite !mret_run. cbn [fst snd]. rewrite Hrun.
      exists (Val Null :: rs), (Null :: vs). split.
      * cbn [settlement resolve]. f_equal. f_equal. apply filter_ext.
        intros [n c]. cbn [fst existsb].
        destruct (String.eqb n CACHE_NAME); reflexivity.
      * cbn [collect]. rewrite Hcol. reflexivity.
    + rewrite !caches_delete_run. cbn [fst snd].
      match goal with |- context [start_all _ ?w1] =>
        destruct (IH w1) as (rs & vs & Hrun & Hcol) end.
      rewrite Hrun. cbn [storage with_storage].
      eexists (_ :: rs), (_ :: vs). split.
      * cbn [settlement resolve]. f_equal.
        rewrite filter_twice. unfold with_storage. cbn [storage fetch_log skip_waiting clients_claimed].
        f_equal. apply filter_ext. intros [n c]. cbn [fst existsb].
        destruct (String.eqb_spec n k) as [-> | Hn]; cbn [negb andb orb].
        -- rewrite (proj2 (String.eqb_neq k CACHE_NAME) Hk). reflexivity.
        -- reflexivity.
      * cbn [collect settlement resolve]. rewrite Hcol. reflexivity.
Qed.

Lemma existsb_own_name (p : string * gmap string Response) (st : CacheStorage) :
  In p st -> existsb (String.eqb (fst p)) (map fst st) = true.
Proof.
  intros Hin. apply existsb_exists. exists (fst p).
  split; [apply in_map; exact Hin | apply String.eqb_refl].
Qed.

Lemma lookup_store_filter (name : string) (st : CacheStorage) :
  lookup_store name (List.filter (fun p => String.eqb (fst p) name) st) =
  lookup_store name st.
Proof.
  induction st as [|[n c] st IH]; simpl; [reflexivity|].
  destruct (String.eqb n name) eqn:E; simpl; rewrite ?E; [reflexivity | exact IH].
Qed.

(** C8: activation resolves, and when it has, the cache storage is what it
    was with every store of another name than the current one removed: each
    store that is left is named like the current one, and the current store
    is the same map as before, so each of its entries is retrieved
    unchanged. *)
Theorem activate_keeps_only_current_store (w : World) :
  let run := activate w in
  fst run = Val Undefined /\
  storage (snd run) =
    List.filter (fun p => String.eqb (fst p) CACHE_NAME) (storage w) /\
  Forall (fun name => name = CACHE_NAME) (map fst (storage (snd run))) /\
  lookup_store CACHE_NAME (storage (snd run)) = lookup_store CACHE_NAME (storage w) /\
  (forall key, store_entry CACHE_NAME key (storage (snd run)) =
               store_entry CACHE_NAME key (storage w)).
Proof.
  intros run.
  assert (exists w', activate w = (Val Undefined, w') /\
            storage w' = List.filter (fun p => String.eqb (fst p) CACHE_NAME) (storage w))
    as (w' & Hact & Hst).
  { unfold activate, settle, promise_all, caches_keys, clients_claim, throw,
      mbind, JS_bind.
    destruct (start_all_deletes (map fst (storage w)) w) as (rs & vs & Hrun & Hcol).
    rewrite Hrun, Hcol, mret_run. eexists. split; [reflexivity|].
    cbn [storage with_storage].
    apply filter_ext_in. intros p Hin.
    rewrite (existsb_own_name p _ Hin). apply orb_false_r. }
  subst run. rewrite Hact. cbn [fst snd].
  split; [reflexivity|]. split; [exact Hst|]. rewrite Hst. split; [|split].
  - apply List.Forall_forall. intros name Hin. apply in_map_iff in Hin.
    destruct Hin as (p & <- & Hp). apply filter_In in Hp.
    apply String.eqb_eq, Hp.
  - apply lookup_store_filter.
  - intros key. unfold store_entry. rewrite lookup_store_filter. reflexivity.
Qed.

(** ** The lifecycle: installation *)

Lemma logged_nil (w : World) : logged [] w = w.
Proof. unfold logged. rewrite app_nil_r. destruct w; reflexivity. Qed.

Lemma logged_logged (l1 l2 : list Request) (w : World) :
  logged l2 (logged l1 w) = logged (l1 ++ l2) w.
Proof. unfold logged. cbn [storage fetch_log skip_waiting clients_claimed].
  rewrite app_assoc. reflexivity. Qed.

Lemma settlement_as_outcome (a : option Response) :
  settlement (as_outcome a) = as_outcome a.
Proof. destruct a; reflexivity. Qed.

Lemma fetch_run (net : Network) (req : Request) (w : World) :
  (r ← fetch net req; mret (Resp r)) w =
    (as_outcome (net (length (fetch_log w)) req), logged [req] w).
Proof.
  unfold mbind, JS_bind, fetch, logged.
  destruct (net (length (fetch_log w)) req); reflexivity.
Qed.

(** Every path is fetched, in order, whatever the earlier fetches gave. *)
Lemma start_all_fetches (self_origin : string) (net : Network) (paths : list string) :
  forall w,
    start_all (map (fun p => r ← fetch net (request_of_path self_origin p); mret (Resp r))
                   paths) w =
      (Val (map as_outcome (answers self_origin net (length (fetch_log w)) paths)),
       logged (map (request_of_path self_origin) paths) w).
Proof.
  induction paths as [|p paths IH]; intros w.
  - cbn [map start_all answers]. rewrite logged_nil. reflexivity.
  - cbn [map]. rewrite start_all_cons, fetch_run. cbn [fst snd].
    rewrite IH, settlement_as_outcome, logged_logged.
    cbn [logged fetch_log answers map]. rewrite length_app, Nat.add_1_r.
    reflexivity.
Qed.

Lemma collect_answers (l : list (option Response)) :
  collect (map as_outcome l) =
    match all_answered l with
    | Some rs => Val (map Resp rs)
    | None => Exn NetworkFailure
    end.
Proof.
  induction l as [|[r|] l IH]; cbn [map as_outcome collect all_answered];
    [reflexivity | | reflexivity].
  rewrite IH. destruct (all_answered l); reflexivity.
Qed.

Lemma all_answered_length (l : list (option Response)) (rs : list Response) :
  all_answered l = Some rs -> length rs = length l.
Proof.
  revert rs; induction l as [|[r|] l IH]; intros rs; cbn [all_answered].
  - intros [= <-]. reflexivity.
  - destruct (all_answered l) as [rs'|]; [|discriminate].
    intros [= <-]. cbn [length]. rewrite (IH rs' eq_refl). reflexivity.
  - discriminate.
Qed.

Lemma answers_length (self_origin : string) (net : Network) (paths : list string) :
  forall n, length (answers self_origin net n paths) = length paths.
Proof.
  induction paths as [|p paths IH]; intros n; cbn [answers length];
    [reflexivity | rewrite IH; reflexivity].
Qed.

(** The writes of [addAll]: the store is still there, nothing is fetched,
    and each entry of the store is the response last written under its key,
    or what it was. *)
Lemma put_all_entries (cache : string) (kvs : list (string * Response)) :
  forall w,
    is_Some (lookup_store cache (storage w)) ->
    let run := put_all cache (map (fun kv => (fst kv, Resp (snd kv))) kvs) w in
    fst run = Val Undefined /\
    fetch_log (snd run) = fetch_log w /\
    forall key,
      store_entry cache key (storage (snd run)) =
        match last_written key kvs with
        | Some r => Some r
        | None => store_entry cache key (storage w)
        end.
Proof.
  induction kvs as [|[k r] kvs IH]; intros w Hex run; subst run.
  - cbn [map put_all last_written]. rewrite mret_run. auto.
  - cbn [map put_all fst snd]. unfold mbind, JS_bind, cache_put.
    match goal with |- context [put_all _ _ ?w1] =>
      destruct (IH w1) as (Hout & Hlog & Hent) end.
    { cbn [storage with_storage]. rewrite lookup_store_update, String.eqb_refl.
      destruct Hex as [c ->]. eauto. }
    split; [exact Hout|]. split; [exact Hlog|].
    intros key. rewrite Hent. cbn [last_written].
    destruct (last_written key kvs); [reflexivity|].
    cbn [storage with_storage]. rewrite store_entry_put by exact Hex.
    destruct (String.eqb_spec k key) as [-> | Hk].
    + rewrite bool_decide_eq_true_2; reflexivity.
    + rewrite bool_decide_eq_false_2 by congruence. reflexivity.
Qed.

Lemma combine_responses (keys : list string) (rs : list Response) :
  combine keys (map Resp rs) = map (fun kv => (fst kv, Resp (snd kv))) (combine keys rs).
Proof.
  revert rs; induction keys as [|k keys IH]; intros [|r rs]; cbn [combine map];
    [reflexivity .. |]. rewrite IH. reflexivity.
Qed.

Lemma last_written_absent (key : string) (keys : list string) (rs : list Response) :
  ~ In key keys -> last_written key (combine keys rs) = None.
Proof.
  revert rs; induction keys as [|k keys IH]; intros [|r rs] Hnin;
    cbn [combine last_written]; try reflexivity.
  rewrite IH by (intros H; apply Hnin; right; exact H).
  destruct (String.eqb_spec k key) as [-> | _]; [|reflexivity].
  exfalso. apply Hnin. left. reflexivity.
Qed.

(** Writes under pairwise different keys: each key holds its own response. *)
Lemma last_written_own (f : string -> string) (paths : list string) :
  forall rs,
    List.NoDup (map f paths) -> length rs = length paths ->
    Forall2 (fun p r => last_written (f p) (combine (map f paths) rs) = Some r) paths rs.
Proof.
  induction paths as [|p paths IH]; intros [|r rs] Hnd Hlen; try discriminate.
  - constructor.
  - cbn [map] in Hnd. apply List.NoDup_cons_iff in Hnd. destruct Hnd as [Hnin Hnd].
    cbn [map combine]. constructor.
    + cbn [last_written]. rewrite last_written_absent by exact Hnin.
      rewrite String.eqb_refl. reflexivity.
    + injection Hlen as Hlen. specialize (IH rs Hnd Hlen).
      eapply Forall2_impl; [exact IH|]. cbn beta.
      intros q r' Hq. cbn [last_written]. rewrite Hq. reflexivity.
Qed.

Lemma append_empty (s : string) : s +:+ "" = s.
Proof.
  induction s as [|c s IH]; [reflexivity|].
  change (String c (s +:+ "") = String c s). rewrite IH. reflexivity.
Qed.

Lemma append_cancel (s a b : string) : s +:+ a = s +:+ b -> a = b.
Proof.
  induction s as [|c s IH]; [auto|].
  change (String c (s +:+ a) = String c (s +:+ b) -> a = b). intros [= H]. auto.
Qed.

Lemma key_of_path_inj (self_origin p q : string) :
  key_of_path self_origin p = key_of_path self_origin q -> p = q.
Proof.
  unfold key_of_path, href, resolve_path. cbn [origin pathname search].
  rewrite !append_empty. apply append_cancel.
Qed.

Lemma manifest_keys_differ (self_origin : string) :
  List.NoDup (map (key_of_path self_origin) PRECACHE_ASSETS).
Proof.
  unfold PRECACHE_ASSETS. cbn [map].
  repeat (apply List.NoDup_cons;
          [cbn [In]; intros H;
           repeat (destruct H as [H | H]; [apply key_of_path_inj in H; discriminate H|]);
           exact H|]).
  apply List.NoDup_nil.
Qed.

Lemma bind_run {A B} (m : JS A) (f : A -> JS B) (w : World) :
  (m ≫= f) w =
    match m w with
    | (Val a, w') => f a w'
    | (Exn e, w') => (Exn e, w')
    end.
Proof. reflexivity. Qed.

(** [addAll], as one step: all fetches, then all writes or the failure. *)
Lemma cache_addAll_run (self_origin : string) (net : Network) (cache : string)
    (paths : list string) (w : World) :
  cache_addAll self_origin net cache paths w =
    match all_answered (answers self_origin net (length (fetch_log w)) paths) with
    | Some rs =>
        put_all cache
          (map (fun kv => (fst kv, Resp (snd kv)))
               (combine (map (key_of_path self_origin) paths) rs))
          (logged (map (request_of_path self_origin) paths) w)
    | None => (Exn NetworkFailure, logged (map (request_of_path self_origin) paths) w)
    end.
Proof.
  unfold cache_addAll, promise_all, throw.
  rewrite !bind_run, start_all_fetches, collect_answers.
  destruct (all_answered _) as [rs|]; [|reflexivity].
  rewrite mret_run, combine_responses. reflexivity.
Qed.

(** C9: installation fetches every path of the precache manifest, in order,
    whatever the earlier fetches gave, and its promise (the readiness signal
    given to [waitUntil]) settles only in a world where all of them have been
    attempted.  When every fetch is answered, installation succeeds and the
    current store holds, under the key of each path, the response fetched for
    it.  When any single fetch fails, installation fails, and no entry of the
    storage has changed. *)
Theorem install_all_or_nothing (self_origin : string) (net : Network) (w : World) :
  let run := install self_origin net w in
  fetch_log (snd run) = fetch_log w ++ map (request_of_path self_origin) PRECACHE_ASSETS /\
  match all_answered (answers self_origin net (length (fetch_log w)) PRECACHE_ASSETS) with
  | Some rs =>
      fst run = Val Undefined /\
      Forall2 (fun p r =>
                 store_entry CACHE_NAME (key_of_path self_origin p) (storage (snd run)) = Some r)
              PRECACHE_ASSETS rs
  | None =>
      fst run = Exn NetworkFailure /\
      forall name key,
        store_entry name key (storage (snd run)) = store_entry name key (storage w)
  end.
Proof.
  intros run.
  set (w0 := {| storage := storage w; fetch_log := fetch_log w;
                skip_waiting := true; clients_claimed := clients_claimed w |}).
  pose proof (caches_open_spec CACHE_NAME w0) as (Hr & Hex & Hlog & Hent & _).
  assert (run = settle (cache_addAll self_origin net CACHE_NAME PRECACHE_ASSETS)
                       (snd (caches_open CACHE_NAME w0))) as ->.
  { subst run. unfold install, skipWaiting, settle, mbind, JS_bind. fold w0.
    destruct (caches_open CACHE_NAME w0) as [r1 w1]. cbn [fst snd] in Hr |- *.
    subst r1. reflexivity. }
  destruct (caches_open CACHE_NAME w0) as [r1 w1].
  cbn [fst snd storage fetch_log w0] in Hr, Hex, Hlog, Hent |- *. clear Hr r1.
  unfold settle. rewrite cache_addAll_run, Hlog.
  destruct (all_answered _) as [rs|] eqn:Hall.
  - pose proof (put_all_entries CACHE_NAME
                  (combine (map (key_of_path self_origin) PRECACHE_ASSETS) rs)
                  (logged (map (request_of_path self_origin) PRECACHE_ASSETS) w1) Hex)
      as (Hout & Hlog' & Hent').
    destruct (put_all _ _ _) as [r2 w2]. cbn [fst snd logged fetch_log storage] in *.
    subst r2. rewrite Hlog', Hlog. split; [reflexivity|]. split; [reflexivity|].
    apply all_answered_length in Hall. rewrite answers_length in Hall.
    pose proof (last_written_own (key_of_path self_origin) PRECACHE_ASSETS rs
                  (manifest_keys_differ self_origin) Hall) as Hown.
    eapply Forall2_impl; [exact Hown|]. cbn beta.
    intros p r Hp. rewrite Hent', Hp. reflexivity.
  - cbn [fst snd logged fetch_log storage settlement]. rewrite Hlog.
    split; [reflexivity|]. split; [reflexivity|].
    intros name key. apply Hent.
Qed.

(** ** Worked examples *)

(** A POST is left to the browser, whatever its mode and path. *)
Example post_passes_through :
  on_fetch app_origin offline
    {| method := "POST"; mode := "navigate";
       url := {| origin := app_origin; pathname := "/style.css"; search := "" |} |}
    empty_world = ([], empty_world).
Proof. reflexivity. Qed.

(** The suffix test looks at the path only and is case-sensitive; another
    origin's stylesheet takes the default route. *)
Example routes_by_suffix :
  router_spec app_origin (get "no-cors" "/css/site.css") = Some StaleWhileRevalidate /\
  router_spec app_origin (get "no-cors" "/css/SITE.CSS") = Some NetworkWithCacheFallback /\
  router_spec app_origin (get "no-cors" "/img/a.jpeg") = Some CacheFirst /\
  router_spec app_origin (get "navigate" "/img/a.jpeg") = Some NetworkFirstNavigation /\
  router_spec app_origin
    {| method := "GET"; mode := "no-cors";
       url := {| origin := "https://cdn.example"; pathname := "/lib.js"; search := "" |} |}
    = Some NetworkWithCacheFallback /\
  test re_css_js "/css/site.css" = true /\
  test re_css_js "/css/SITE.CSS" = false /\
  test re_image "/img/a.jpeg" = true.
Proof. vm_compute. repeat split. Qed.

(** An unclassified request that the network answers: the answer is
    returned and nothing is cached. *)
Example default_route_does_not_cache :
  on_fetch app_origin (always (page "[1,2,3]")) data_request empty_world =
    ([(NetworkWithCacheFallback, Val (Resp (page "[1,2,3]")))],
     logged [data_request] empty_world).
Proof. reflexivity. Qed.

(** When the current store is the only store, [caches.match] reads it. *)
Lemma storage_match_single (name key : string) (c : gmap string Response) :
  storage_match key [(name, c)] = store_entry name key [(name, c)].
Proof.
  unfold store_entry. cbn [storage_match lookup_store]. rewrite String.eqb_refl.
  cbn [mbind option_bind]. destruct (c !! key); reflexivity.
Qed.

(** The manifest of two paths of the specification's scenario, through
    [addAll]: two fetches, two entries. *)
Example addAll_two_paths :
  let run := cache_addAll app_origin (always (page "shell")) CACHE_NAME ["/"; "/index.html"]
               (cached_world "unrelated" (page "x")) in
  fst run = Val Undefined /\
  length (fetch_log (snd run)) = 2 /\
  store_entry CACHE_NAME (key_of_path app_origin "/") (storage (snd run))
    = Some (page "shell") /\
  store_entry CACHE_NAME (key_of_path app_origin "/index.html") (storage (snd run))
    = Some (page "shell").
Proof. vm_compute. repeat split. Qed.

(** Activation with one stale store present leaves the current store only. *)
Example activate_drops_old_cache :
  map fst (storage (snd (activate
    {| storage := [("old-cache-v1", {[ "k" := page "old" ]});
                   (CACHE_NAME, {[ "k" := page "new" ]})];
       fetch_log := []; skip_waiting := true; clients_claimed := false |})))
  = [CACHE_NAME].
Proof. vm_compute. reflexivity. Qed.

(** * Further properties of the worker *)

(** ** What one handled request does to the world *)

(** The listener, as a dispatch on the routing table. *)
Lemma on_fetch_dispatch (self_origin : string) (net : Network) (req : Request) (w : World) :
  on_fetch self_origin net req w =
    match router_spec self_origin req with
    | None => ([], w)
    | Some s => respond s (strategy_body self_origin net s req) w
    end.
Proof.
  unfold on_fetch, router_spec. rewrite test_re_css_js, test_re_image.
  destruct (String.eqb_spec (method req) "GET") as [Hm | Hm]; cbn [negb].
  - rewrite (bool_decide_eq_false_2 (method req ≠ "GET")) by (intros H; exact (H Hm)).
    destruct (String.eqb_spec (mode req) "navigate") as [Hn | Hn].
    + rewrite (bool_decide_eq_true_2 _ Hn). reflexivity.
    + rewrite (bool_decide_eq_false_2 _ Hn).
      destruct (String.eqb_spec (origin (url req)) self_origin) as [Ho | Ho].
      * rewrite (bool_decide_eq_true_2 _ Ho). cbn [andb].
        destruct (stylesheet_or_script (pathname (url req))); [reflexivity|].
        destruct (known_image (pathname (url req))); reflexivity.
      * rewrite (bool_decide_eq_false_2 _ Ho). reflexivity.
  - rewrite (bool_decide_eq_true_2 _ Hm). reflexivity.
Qed.

Lemma respond_world (s : strategy) (p : JS value) (w : World) :
  snd (respond s p w) = snd (settle p w).
Proof. unfold respond. destruct (settle p w). reflexivity. Qed.

Lemma lookup_store_absent (name : string) (st : CacheStorage) :
  lookup_store name st = None <-> ~ In name (map fst st).
Proof.
  induction st as [|[n c] st IH]; cbn [lookup_store map fst In]; [tauto|].
  destruct (String.eqb_spec n name) as [-> | Hn].
  - split; [discriminate | intros H; exfalso; apply H; left; reflexivity].
  - rewrite IH. tauto.
Qed.

Lemma update_store_names (name : string) (f : gmap string Response -> gmap string Response)
    (st : CacheStorage) :
  map fst (update_store name f st) = map fst st.
Proof.
  induction st as [|[n c] st IH]; cbn [update_store map fst]; [reflexivity|].
  destruct (String.eqb n name); cbn [map fst]; [reflexivity | rewrite IH; reflexivity].
Qed.

(** [caches.open] never removes a store and adds at most the one it opens. *)
Lemma caches_open_names (name : string) (w : World) :
  map fst (storage (snd (caches_open name w))) = map fst (storage w) \/
  (~ In name (map fst (storage w)) /\
   map fst (storage (snd (caches_open name w))) = map fst (storage w) ++ [name]).
Proof.
  unfold caches_open. destruct (lookup_store name (storage w)) eqn:E; cbn [snd storage].
  - left. reflexivity.
  - right. split; [apply lookup_store_absent; exact E|].
    cbn [with_storage storage]. rewrite map_app. reflexivity.
Qed.

Lemma caches_open_flags (name : string) (w : World) :
  skip_waiting (snd (caches_open name w)) = skip_waiting w /\
  clients_claimed (snd (caches_open name w)) = clients_claimed w.
Proof.
  unfold caches_open. destruct (lookup_store name (storage w)); split; reflexivity.
Qed.

(** The four strategies, each as one step from world to world. *)
Lemma networkFirstNavigation_world (self_origin : string) (net : Network)
    (req : Request) (w : World) :
  settle (networkFirstNavigation self_origin net req) w =
    match net (length (fetch_log w)) req with
    | Some fresh =>
        let w1 := snd (caches_open CACHE_NAME (logged [req] w)) in
        (Val (Resp fresh),
         with_storage
           (update_store CACHE_NAME
              (fun c => <[key_of_path self_origin ENTRY_HTML := fresh]> c) (storage w1)) w1)
    | None =>
        (Val (Resp
           match storage_match (key_of_path self_origin ENTRY_HTML) (storage w) with
           | Some entry => entry
           | None =>
               match storage_match (key_of_path self_origin "/") (storage w) with
               | Some root => root
               | None => offline_document
               end
           end),
         logged [req] w)
    end.
Proof.
  unfold_js. unfold logged.
  destruct (net (length (fetch_log w)) req) as [fresh|].
  - open_store w1 Hex Hlog Hent Hmatch. rewrite clone_eq. reflexivity.
  - cbn [storage].
    destruct (storage_match (key_of_path self_origin ENTRY_HTML) (storage w)) as [entry|];
      cbn [found truthy]; [reflexivity|].
    cbn [storage].
    destruct (storage_match (key_of_path self_origin "/") (storage w)); reflexivity.
Qed.

Lemma staleWhileRevalidate_world (net : Network) (req : Request) (w : World) :
  settle (staleWhileRevalidate net req) w =
    let w1 := snd (caches_open CACHE_NAME w) in
    match net (length (fetch_log w)) req with
    | Some res =>
        (Val (Resp (default res (store_entry CACHE_NAME (key_of req) (storage w)))),
         with_storage
           (update_store CACHE_NAME (fun c => <[key_of req := res]> c) (storage w1))
           (logged [req] w1))
    | None =>
        (Val (found (store_entry CACHE_NAME (key_of req) (storage w))), logged [req] w1)
    end.
Proof.
  unfold_js. unfold logged.
  pose proof (caches_open_spec CACHE_NAME w) as (Hr & Hex & Hlog & Hent & Hmatch).
  destruct (caches_open CACHE_NAME w) as [r w1].
  cbn [fst snd] in Hr, Hex, Hlog, Hent, Hmatch |- *. subst r.
  rewrite Hent, Hlog.
  destruct (net (length (fetch_log w)) req) as [res|];
    destruct (store_entry CACHE_NAME (key_of req) (storage w)) as [cached|];
    cbn [found truthy settlement resolve default]; rewrite ?clone_eq; reflexivity.
Qed.

Lemma cacheFirst_world (net : Network) (req : Request) (w : World) :
  settle (cacheFirst net req) w =
    match store_entry CACHE_NAME (key_of req) (storage w) with
    | Some cached => (Val (Resp cached), w)
    | None =>
        let w1 := snd (caches_open CACHE_NAME w) in
        match net (length (fetch_log w)) req with
        | Some res =>
            (Val (Resp res),
             with_storage
               (update_store CACHE_NAME (fun c => <[key_of req := res]> c) (storage w1))
               (logged [req] w1))
        | None => (Exn NetworkFailure, logged [req] w1)
        end
    end.
Proof.
  destruct (store_entry CACHE_NAME (key_of req) (storage w)) as [cached|] eqn:E.
  - apply cacheFirst_hit. exact E.
  - unfold_js. unfold logged.
    pose proof (caches_open_spec CACHE_NAME w) as (Hr & Hex & Hlog & Hent & Hmatch).
    destruct (caches_open CACHE_NAME w) as [r w1].
    cbn [fst snd] in Hr, Hex, Hlog, Hent, Hmatch |- *. subst r.
    rewrite Hent, E. cbn [found truthy]. cbv beta. rewrite !Hlog.
    destruct (net (length (fetch_log w)) req) as [res|];
      cbn [settlement resolve]; rewrite ?clone_eq; reflexivity.
Qed.

Lemma networkWithCacheFallback_world (net : Network) (req : Request) (w : World) :
  settle (networkWithCacheFallback net req) w =
    (match net (length (fetch_log w)) req with
     | Some res => Val (Resp res)
     | None => Val (found (storage_match (key_of req) (storage w)))
     end,
     logged [req] w).
Proof.
  unfold_js. unfold logged.
  destruct (net (length (fetch_log w)) req) as [res|]; [reflexivity|].
  cbn [storage]. destruct (storage_match (key_of req) (storage w)); reflexivity.
Qed.

(** The world in which the current store has been opened and one response
    written into it, against the world before. *)
Lemma written_world (w0 : World) (key : string) (res : Response) :
  let w1 := snd (caches_open CACHE_NAME w0) in
  let st := update_store CACHE_NAME (fun c => <[key := res]> c) (storage w1) in
  (map fst st = map fst (storage w0) \/
   (~ In CACHE_NAME (map fst (storage w0)) /\
    map fst st = map fst (storage w0) ++ [CACHE_NAME])) /\
  (forall n k, store_entry n k st =
     if bool_decide ((n, k) = (CACHE_NAME, key)) then Some res
     else store_entry n k (storage w0)).
Proof.
  intros w1 st. subst st w1.
  pose proof (caches_open_spec CACHE_NAME w0) as (_ & Hex & _ & Hent & _).
  split.
  - rewrite update_store_names. apply caches_open_names.
  - intros n k. rewrite store_entry_put by exact Hex. rewrite Hent. reflexivity.
Qed.

(** What a strategy does to the world: the fetches it makes, the stores
    there are afterwards, the entries it leaves alone, and the flags. *)
Lemma strategy_effect (self_origin : string) (net : Network) (s : strategy)
    (req : Request) (w : World) :
  let w' := snd (settle (strategy_body self_origin net s req) w) in
  fetch_log w' =
    fetch_log w ++
      match s, store_entry CACHE_NAME (key_of req) (storage w) with
      | CacheFirst, Some _ => []
      | _, _ => [req]
      end /\
  (map fst (storage w') = map fst (storage w) \/
   (~ In CACHE_NAME (map fst (storage w)) /\
    map fst (storage w') = map fst (storage w) ++ [CACHE_NAME])) /\
  (forall n k,
     (n, k) <> (CACHE_NAME, key_of req) ->
     (n, k) <> (CACHE_NAME, key_of_path self_origin ENTRY_HTML) ->
     store_entry n k (storage w') = store_entry n k (storage w)) /\
  (net (length (fetch_log w)) req = None ->
   forall n k, store_entry n k (storage w') = store_entry n k (storage w)) /\
  skip_waiting w' = skip_waiting w /\
  clients_claimed w' = clients_claimed w.
Proof.
  intros w'. subst w'.
  pose proof (caches_open_spec CACHE_NAME w) as (_ & _ & Hlog & Hent & _).
  pose proof (caches_open_names CACHE_NAME w) as Hnames.
  pose proof (caches_open_flags CACHE_NAME w) as [Hskip Hclaim].
  destruct s; cbn [strategy_body].
  - rewrite networkFirstNavigation_world.
    destruct (net (length (fetch_log w)) req) as [fresh|].
    + pose proof (written_world (logged [req] w)
                    (key_of_path self_origin ENTRY_HTML) fresh) as [Hn He].
      pose proof (caches_open_spec CACHE_NAME (logged [req] w)) as (_ & _ & Hlog' & _ & _).
      pose proof (caches_open_flags CACHE_NAME (logged [req] w)) as [Hskip' Hclaim'].
      cbv zeta in Hn, He |- *. cbn [snd storage fetch_log skip_waiting clients_claimed
                                   with_storage logged] in *.
      rewrite Hlog'.
      destruct (store_entry CACHE_NAME (key_of req) (storage w));
        (split; [reflexivity|]); (split; [exact Hn|]);
        (split; [intros n k _ Hk; rewrite He, bool_decide_eq_false_2 by exact Hk; reflexivity|]);
        (split; [discriminate|]); split; assumption.
    + cbn [snd storage fetch_log skip_waiting clients_claimed logged].
      destruct (store_entry CACHE_NAME (key_of req) (storage w)); auto 10.
  - rewrite staleWhileRevalidate_world. cbv zeta.
    destruct (net (length (fetch_log w)) req) as [res|].
    + pose proof (written_world w (key_of req) res) as [Hn He].
      cbv zeta in Hn, He.
      cbn [snd storage fetch_log skip_waiting clients_claimed with_storage logged].
      rewrite Hlog.
      destruct (store_entry CACHE_NAME (key_of req) (storage w));
        (split; [reflexivity|]); (split; [exact Hn|]);
        (split; [intros n k Hk _; rewrite He, bool_decide_eq_false_2 by exact Hk; reflexivity|]);
        (split; [discriminate|]); split; assumption.
    + cbn [snd storage fetch_log skip_waiting clients_claimed logged]. rewrite Hlog.
      destruct (store_entry CACHE_NAME (key_of req) (storage w)); auto 10.
  - rewrite cacheFirst_world.
    destruct (store_entry CACHE_NAME (key_of req) (storage w)) as [cached|].
    + cbn [snd]. rewrite app_nil_r. auto 10.
    + cbv zeta. destruct (net (length (fetch_log w)) req) as [res|].
      * pose proof (written_world w (key_of req) res) as [Hn He].
        cbv zeta in Hn, He.
        cbn [snd storage fetch_log skip_waiting clients_claimed with_storage logged].
        rewrite Hlog.
        split; [reflexivity|]. split; [exact Hn|].
        split; [intros n k Hk _; rewrite He, bool_decide_eq_false_2 by exact Hk; reflexivity|].
        split; [discriminate|]. split; assumption.
      * cbn [snd storage fetch_log skip_waiting clients_claimed logged]. rewrite Hlog.
        auto 10.
  - rewrite networkWithCacheFallback_world.
    cbn [snd storage fetch_log skip_waiting clients_claimed logged].
    destruct (store_entry CACHE_NAME (key_of req) (storage w)); auto 10.
Qed.

(** X1: handling one request makes at most one call of the network
    transport, and that call is for the request itself.  No call is made for
    a request that is not intercepted (method other than GET), nor for a
    same-origin image whose entry is cached; every other request is fetched
    exactly once, whatever the network answers. *)
Theorem on_fetch_fetches_once (self_origin : string) (net : Network) (req : Request)
    (w : World) :
  fetch_log (snd (on_fetch self_origin net req w)) =
    fetch_log w ++
      match router_spec self_origin req,
            store_entry CACHE_NAME (key_of req) (storage w) with
      | None, _ => []
      | Some CacheFirst, Some _ => []
      | Some _, _ => [req]
      end
  /\ length (fetch_log (snd (on_fetch self_origin net req w))) <= S (length (fetch_log w)).
Proof.
  assert (fetch_log (snd (on_fetch self_origin net req w)) =
    fetch_log w ++
      match router_spec self_origin req,
            store_entry CACHE_NAME (key_of req) (storage w) with
      | None, _ => []
      | Some CacheFirst, Some _ => []
      | Some _, _ => [req]
      end) as Hlog.
  { rewrite on_fetch_dispatch. destruct (router_spec self_origin req) as [s|].
    - rewrite respond_world.
      destruct (strategy_effect self_origin net s req w) as (H & _). rewrite H.
      destruct s, (store_entry CACHE_NAME (key_of req) (storage w)); reflexivity.
    - cbn [snd]. rewrite app_nil_r. reflexivity. }
  split; [exact Hlog|]. rewrite Hlog, length_app.
  destruct (router_spec self_origin req) as [[]|],
           (store_entry CACHE_NAME (key_of req) (storage w)); cbn [length]; lia.
Qed.

(** X2: handling one request changes at most two entries of the whole cache
    storage: the entry of the current store under the request's own key and
    the entry of the current store under the key of the entry document.
    Every other entry, of the current store and of any other store, reads
    after the request as it did before. *)
Theorem on_fetch_leaves_other_entries (self_origin : string) (net : Network)
    (req : Request) (w : World) (name key : string) :
  (name, key) <> (CACHE_NAME, key_of req) ->
  (name, key) <> (CACHE_NAME, key_of_path self_origin ENTRY_HTML) ->
  store_entry name key (storage (snd (on_fetch self_origin net req w))) =
  store_entry name key (storage w).
Proof.
  intros Hreq Hentry. rewrite on_fetch_dispatch.
  destruct (router_spec self_origin req) as [s|]; [|reflexivity].
  rewrite respond_world.
  destruct (strategy_effect self_origin net s req w) as (_ & _ & H & _).
  apply H; assumption.
Qed.

Lemma on_fetch_leaves_other_entries_witness :
  (CACHE_NAME, "https://app.example/logo.png") <> (CACHE_NAME, key_of script_request) /\
  (CACHE_NAME, "https://app.example/logo.png")
    <> (CACHE_NAME, key_of_path app_origin ENTRY_HTML) /\
  store_entry CACHE_NAME "https://app.example/logo.png"
    (storage (snd (on_fetch app_origin (always (page "v2")) script_request
                     (cached_world "https://app.example/logo.png" (page "logo")))))
  = store_entry CACHE_NAME "https://app.example/logo.png"
      (storage (cached_world "https://app.example/logo.png" (page "logo"))).
Proof.
  assert ((CACHE_NAME, "https://app.example/logo.png")
            <> (CACHE_NAME, key_of script_request)) as H1
    by (vm_compute; intros H; discriminate H).
  assert ((CACHE_NAME, "https://app.example/logo.png")
            <> (CACHE_NAME, key_of_path app_origin ENTRY_HTML)) as H2
    by (vm_compute; intros H; discriminate H).
  split; [exact H1|]. split; [exact H2|].
  exact (on_fetch_leaves_other_entries app_origin (always (page "v2")) script_request
           (cached_world "https://app.example/logo.png" (page "logo"))
           CACHE_NAME "https://app.example/logo.png" H1 H2).
Defined.

(** X3: a request whose fetch fails leaves every entry of every store as it
    was: no strategy writes anything when the network does not answer, so
    going offline never overwrites or removes what is cached. *)
Theorem on_fetch_offline_writes_nothing (self_origin : string) (net : Network)
    (req : Request) (w : World) :
  net (length (fetch_log w)) req = None ->
  forall name key,
    store_entry name key (storage (snd (on_fetch self_origin net req w))) =
    store_entry name key (storage w).
Proof.
  intros Hnet name key. rewrite on_fetch_dispatch.
  destruct (router_spec self_origin req) as [s|]; [|reflexivity].
  rewrite respond_world.
  destruct (strategy_effect self_origin net s req w) as (_ & _ & _ & H & _).
  apply H. exact Hnet.
Qed.

Lemma on_fetch_offline_writes_nothing_witness :
  offline (length (fetch_log (cached_world (key_of script_request) (page "v1"))))
          script_request = None /\
  forall name key,
    store_entry name key
      (storage (snd (on_fetch app_origin offline script_request
                       (cached_world (key_of script_request) (page "v1"))))) =
    store_entry name key (storage (cached_world (key_of script_request) (page "v1"))).
Proof.
  split; [reflexivity|].
  exact (on_fetch_offline_writes_nothing app_origin offline script_request
           (cached_world (key_of script_request) (page "v1")) eq_refl).
Defined.

(** X4: handling a request never deletes a store and never reorders the
    stores: the names listed afterwards are the names listed before, followed
    by the name of the current store if it was not there yet and had to be
    created.  The two lifecycle flags are not touched. *)
Theorem on_fetch_keeps_stores (self_origin : string) (net : Network) (req : Request)
    (w : World) :
  let w' := snd (on_fetch self_origin net req w) in
  (map fst (storage w') = map fst (storage w) \/
   (~ In CACHE_NAME (map fst (storage w)) /\
    map fst (storage w') = map fst (storage w) ++ [CACHE_NAME])) /\
  skip_waiting w' = skip_waiting w /\
  clients_claimed w' = clients_claimed w.
Proof.
  intros w'. subst w'. rewrite on_fetch_dispatch.
  destruct (router_spec self_origin req) as [s|]; [|cbn [snd]; auto].
  rewrite respond_world.
  destruct (strategy_effect self_origin net s req w) as (_ & Hn & _ & _ & Hs & Hc).
  auto.
Qed.

(** ** Requests one after the other *)

(** X5: [staleWhileRevalidate] is exactly one response behind.  When the
    fetch of a request is answered, the next request for the same URL is
    answered with that response, whether the network then answers something
    newer, the same, or fails. *)
Theorem staleWhileRevalidate_one_behind (net1 net2 : Network) (req : Request)
    (w : World) (res : Response) :
  net1 (length (fetch_log w)) req = Some res ->
  let first := settle (staleWhileRevalidate net1 req) w in
  fst (settle (staleWhileRevalidate net2 req) (snd first)) = Val (Resp res).
Proof.
  intros Hnet first.
  destruct (staleWhileRevalidate_online net1 req w res Hnet) as (_ & Hstore & _).
  fold first in Hstore.
  rewrite staleWhileRevalidate_world. cbv zeta. rewrite Hstore.
  destruct (net2 (length (fetch_log (snd first))) req); reflexivity.
Qed.

Lemma staleWhileRevalidate_one_behind_witness :
  always (page "v2") (length (fetch_log (cached_world (key_of script_request) (page "v1"))))
         script_request = Some (page "v2") /\
  fst (settle (staleWhileRevalidate (always (page "v3")) script_request)
         (snd (settle (staleWhileRevalidate (always (page "v2")) script_request)
                 (cached_world (key_of script_request) (page "v1")))))
    = Val (Resp (page "v2")).
Proof.
  split; [reflexivity|].
  exact (staleWhileRevalidate_one_behind (always (page "v2")) (always (page "v3"))
           script_request (cached_world (key_of script_request) (page "v1"))
           (page "v2") eq_refl).
Defined.

(** When every store is the current one, [caches.match] finds what the
    current store holds. *)
Lemma storage_match_current (key : string) (r : Response) (st : CacheStorage) :
  List.Forall (fun name => name = CACHE_NAME) (map fst st) ->
  store_entry CACHE_NAME key st = Some r ->
  storage_match key st = Some r.
Proof.
  destruct st as [|[n c] st]; [discriminate|].
  intros Hall. apply List.Forall_inv in Hall. cbn [fst] in Hall. subst n.
  unfold store_entry. cbn [lookup_store storage_match]. rewrite String.eqb_refl.
  cbn [mbind option_bind]. intros ->. reflexivity.
Qed.

Lemma all_current_after (names names' : list string) :
  List.Forall (fun name => name = CACHE_NAME) names ->
  names' = names \/ (~ In CACHE_NAME names /\ names' = names ++ [CACHE_NAME]) ->
  List.Forall (fun name => name = CACHE_NAME) names'.
Proof.
  intros Hall [-> | [_ ->]]; [exact Hall|].
  apply List.Forall_app. split; [exact Hall|]. constructor; [reflexivity | constructor].
Qed.

(** X6: navigations share one cached page.  In a storage with no store of
    another name than the current one, once a navigation to any URL has been
    answered by the network, a later navigation to any URL, the same or
    another, that finds the network down is answered with that page. *)
Theorem navigation_offline_after_online (self_origin : string) (net1 net2 : Network)
    (req1 req2 : Request) (w : World) (fresh : Response) :
  List.Forall (fun name => name = CACHE_NAME) (map fst (storage w)) ->
  net1 (length (fetch_log w)) req1 = Some fresh ->
  let online := snd (settle (networkFirstNavigation self_origin net1 req1) w) in
  net2 (length (fetch_log online)) req2 = None ->
  fst (settle (networkFirstNavigation self_origin net2 req2) online) = Val (Resp fresh).
Proof.
  intros Hall Hnet1 online Hnet2.
  destruct (networkFirstNavigation_fresh self_origin net1 req1 w fresh Hnet1) as [_ Hstore].
  fold online in Hstore.
  destruct (strategy_effect self_origin net1 NetworkFirstNavigation req1 w)
    as (_ & Hnames & _).
  cbn [strategy_body] in Hnames. fold online in Hnames.
  pose proof (all_current_after _ _ Hall Hnames) as Hall'.
  destruct (networkFirstNavigation_fallback self_origin net2 req2 online Hnet2) as [-> _].
  rewrite (storage_match_current _ fresh _ Hall'); [reflexivity|].
  rewrite Hstore, bool_decide_eq_true_2; reflexivity.
Qed.

Lemma navigation_offline_after_online_witness :
  List.Forall (fun name => name = CACHE_NAME) (map fst (storage empty_world)) /\
  always (page "about") (length (fetch_log empty_world)) navigation = Some (page "about") /\
  offline (length (fetch_log
             (snd (settle (networkFirstNavigation app_origin (always (page "about"))
                             navigation) empty_world))))
          (get "navigate" "/contact") = None /\
  fst (settle (networkFirstNavigation app_origin offline (get "navigate" "/contact"))
         (snd (settle (networkFirstNavigation app_origin (always (page "about"))
                         navigation) empty_world)))
    = Val (Resp (page "about")).
Proof.
  split; [constructor|]. split; [reflexivity|]. split; [reflexivity|].
  exact (navigation_offline_after_online app_origin (always (page "about")) offline
           navigation (get "navigate" "/contact") empty_world (page "about")
           (List.Forall_nil _) eq_refl eq_refl).
Defined.



(** ** The lifecycle, from installation to the first offline page *)

Lemma activate_run (w : World) : activate w = (Val Undefined, activated w).
Proof.
  unfold activate, settle, promise_all, caches_keys, clients_claim, throw.
  rewrite !bind_run.
  destruct (start_all_deletes (map fst (storage w)) w) as (rs & vs & Hrun & Hcol).
  rewrite Hrun, Hcol, mret_run, bind_run, mret_run.
  cbn [settlement resolve storage fetch_log skip_waiting clients_claimed with_storage].
  unfold activated. f_equal. f_equal.
  apply filter_ext_in. intros p Hin.
  rewrite (existsb_own_name p _ Hin). apply orb_false_r.
Qed.

Lemma filter_same {A} (f : A -> bool) (l : list A) :
  List.filter f (List.filter f l) = List.filter f l.
Proof.
  rewrite filter_twice. apply filter_ext. intros a. destruct (f a); reflexivity.
Qed.

(** X9: activation is idempotent and touches nothing but the cache storage
    and the claim on the clients: a second activation changes nothing at all,
    no activation ever calls the network, and the world after it has the
    clients claimed and every current-store entry as before. *)
Theorem activate_idempotent (w : World) :
  let once := snd (activate w) in
  activate once = (Val Undefined, once) /\
  fetch_log once = fetch_log w /\
  skip_waiting once = skip_waiting w /\
  clients_claimed once = true.
Proof.
  intros once. subst once. rewrite !activate_run. cbn [snd].
  split; [|repeat split].
  f_equal. unfold activated.
  cbn [storage fetch_log skip_waiting clients_claimed].
  rewrite filter_same. reflexivity.
Qed.

Lemma put_all_frame (cache : string) (kvs : list (string * Response)) :
  forall w,
    let run := put_all cache (map (fun kv => (fst kv, Resp (snd kv))) kvs) w in
    map fst (storage (snd run)) = map fst (storage w) /\
    skip_waiting (snd run) = skip_waiting w /\
    clients_claimed (snd run) = clients_claimed w /\
    forall n key, n <> cache ->
      store_entry n key (storage (snd run)) = store_entry n key (storage w).
Proof.
  induction kvs as [|[k r] kvs IH]; intros w run; subst run.
  - cbn [map put_all]. rewrite mret_run. auto.
  - cbn [map put_all fst snd]. rewrite bind_run. unfold cache_put.
    match goal with |- context [put_all _ _ ?w1] =>
      destruct (IH w1) as (Hn & Hs & Hc & He) end.
    rewrite Hn, Hs, Hc. cbn [storage skip_waiting clients_claimed with_storage].
    rewrite update_store_names. repeat split.
    intros n key Hne. rewrite He by exact Hne.
    cbn [storage with_storage]. unfold store_entry. rewrite lookup_store_update.
    rewrite (proj2 (String.eqb_neq cache n)) by congruence. reflexivity.
Qed.

Lemma install_world (self_origin : string) (net : Network) (w : World) :
  install self_origin net w =
    settle (cache_addAll self_origin net CACHE_NAME PRECACHE_ASSETS)
           (snd (caches_open CACHE_NAME (snd (skipWaiting w)))).
Proof.
  unfold install. destruct (skipWaiting w) as [v w0]. cbn [snd].
  unfold settle. rewrite bind_run.
  pose proof (caches_open_spec CACHE_NAME w0) as (Hr & _).
  destruct (caches_open CACHE_NAME w0) as [r w1]. cbn [fst snd] in Hr |- *.
  subst r. reflexivity.
Qed.

(** Installation, as its effect on the world, in both outcomes. *)
Lemma install_effect (self_origin : string) (net : Network) (w : World) :
  let run := install self_origin net w in
  let answered :=
    all_answered (answers self_origin net (length (fetch_log w)) PRECACHE_ASSETS) in
  fst run = match answered with Some _ => Val Undefined | None => Exn NetworkFailure end /\
  skip_waiting (snd run) = true /\
  clients_claimed (snd run) = clients_claimed w /\
  (map fst (storage (snd run)) = map fst (storage w) \/
   (~ In CACHE_NAME (map fst (storage w)) /\
    map fst (storage (snd run)) = map fst (storage w) ++ [CACHE_NAME])) /\
  (forall n key, n <> CACHE_NAME ->
     store_entry n key (storage (snd run)) = store_entry n key (storage w)) /\
  (forall key,
     store_entry CACHE_NAME key (storage (snd run)) =
       match answered with
       | Some rs =>
           match last_written key
                   (combine (map (key_of_path self_origin) PRECACHE_ASSETS) rs) with
           | Some r => Some r
           | None => store_entry CACHE_NAME key (storage w)
           end
       | None => store_entry CACHE_NAME key (storage w)
       end).
Proof.
  intros run answered. subst run answered. rewrite install_world.
  set (w0 := snd (skipWaiting w)).
  pose proof (caches_open_spec CACHE_NAME w0) as (_ & Hex & Hlog & Hent & _).
  pose proof (caches_open_names CACHE_NAME w0) as Hnames.
  pose proof (caches_open_flags CACHE_NAME w0) as [Hskip Hclaim].
  set (w1 := snd (caches_open CACHE_NAME w0)) in *.
  change (storage w0) with (storage w) in *.
  change (fetch_log w0) with (fetch_log w) in *.
  change (skip_waiting w0) with true in *.
  change (clients_claimed w0) with (clients_claimed w) in *.
  unfold settle. rewrite cache_addAll_run, Hlog.
  destruct (all_answered _) as [rs|].
  - set (kvs := combine (map (key_of_path self_origin) PRECACHE_ASSETS) rs).
    set (w2 := logged (map (request_of_path self_origin) PRECACHE_ASSETS) w1).
    pose proof (put_all_entries CACHE_NAME kvs w2 Hex) as (Hout & _ & He).
    pose proof (put_all_frame CACHE_NAME kvs w2) as (Hn & Hs & Hc & Hf).
    cbv zeta in Hout, He, Hn, Hs, Hc, Hf.
    destruct (put_all CACHE_NAME _ w2) as [r3 w3].
    cbn [fst snd] in *. subst r3.
    change (storage w2) with (storage w1) in *.
    change (skip_waiting w2) with (skip_waiting w1) in *.
    change (clients_claimed w2) with (clients_claimed w1) in *.
    split; [reflexivity|]. split; [congruence|]. split; [congruence|].
    split; [rewrite Hn; exact Hnames|].
    split; [intros n key Hne; rewrite Hf by exact Hne; apply Hent|].
    intros key. rewrite He, Hent. reflexivity.
  - cbn [fst snd settlement logged storage skip_waiting clients_claimed].
    split; [reflexivity|]. split; [exact Hskip|]. split; [exact Hclaim|].
    split; [exact Hnames|]. split; intros; apply Hent.
Qed.

Lemma respond_result (s : strategy) (p : JS value) (w : World) :
  fst (respond s p w) = [(s, fst (settle p w))].
Proof. unfold respond. destruct (settle p w). reflexivity. Qed.

Lemma all_answered_second (a0 a1 : option Response) (l : list (option Response))
    (rs : list Response) :
  all_answered (a0 :: a1 :: l) = Some rs ->
  exists r0 r1 rs', rs = r0 :: r1 :: rs' /\ a1 = Some r1.
Proof.
  cbn [all_answered]. destruct a0 as [r0|]; [|discriminate].
  destruct a1 as [r1|]; [|discriminate].
  destruct (all_answered l) as [rs'|]; [|discriminate].
  intros [= <-]. eauto.
Qed.

(** What the current store holds after an installation that succeeded: under
    the key of each manifest path, the response fetched for it. *)
Lemma install_entries (self_origin : string) (net : Network) (w : World)
    (rs : list Response) :
  all_answered (answers self_origin net (length (fetch_log w)) PRECACHE_ASSETS) = Some rs ->
  Forall2 (fun p r =>
             store_entry CACHE_NAME (key_of_path self_origin p)
               (storage (snd (install self_origin net w))) = Some r)
          PRECACHE_ASSETS rs.
Proof.
  intros Hall.
  destruct (install_effect self_origin net w) as (_ & _ & _ & _ & _ & He).
  cbv zeta in He. rewrite Hall in He.
  apply all_answered_length in Hall. rewrite answers_length in Hall.
  pose proof (last_written_own (key_of_path self_origin) PRECACHE_ASSETS rs
                (manifest_keys_differ self_origin) Hall) as Hown.
  eapply Forall2_impl; [exact Hown|]. cbn beta.
  intros p r Hp. rewrite He, Hp. reflexivity.
Qed.

(** X8: the purpose of the worker, end to end.  From any world, if
    installation gets an answer for every manifest path, then after
    activation a navigation to any URL that finds the network down is
    answered with the page that was fetched for the entry document during
    installation. *)
Theorem precached_shell_served_offline (self_origin : string) (net net' : Network)
    (req : Request) (w : World) (shell : Response) :
  is_Some (all_answered
             (answers self_origin net (length (fetch_log w)) PRECACHE_ASSETS)) ->
  net (S (length (fetch_log w))) (request_of_path self_origin ENTRY_HTML) = Some shell ->
  method req = "GET" ->
  mode req = "navigate" ->
  let active := snd (activate (snd (install self_origin net w))) in
  net' (length (fetch_log active)) req = None ->
  fst (on_fetch self_origin net' req active)
    = [(NetworkFirstNavigation, Val (Resp shell))].
Proof.
  intros [rs Hall] Hshell Hget Hnav active Hdown.
  pose proof (install_entries self_origin net w rs Hall) as Hent.
  unfold PRECACHE_ASSETS in Hall, Hent. cbn [answers] in Hall.
  destruct (all_answered_second _ _ _ _ Hall) as (r0 & r1 & rs' & -> & Hr1).
  rewrite Hshell in Hr1. injection Hr1 as <-.
  apply Forall2_cons_1 in Hent. destruct Hent as [_ Hent].
  apply Forall2_cons_1 in Hent. destruct Hent as [Hentry _].
  assert (storage_match (key_of_path self_origin ENTRY_HTML) (storage active) = Some shell)
    as Hmatch.
  { subst active. rewrite activate_run. cbn [snd activated storage].
    apply storage_match_current.
    - apply List.Forall_forall. intros name Hin. apply in_map_iff in Hin.
      destruct Hin as (p & <- & Hp). apply filter_In in Hp.
      apply String.eqb_eq, Hp.
    - unfold store_entry. rewrite lookup_store_filter. exact Hentry. }
  rewrite on_fetch_dispatch. unfold router_spec.
  rewrite (bool_decide_eq_false_2 (method req ≠ "GET")) by (intros H; exact (H Hget)).
  rewrite (bool_decide_eq_true_2 _ Hnav).
  rewrite respond_result. cbn [strategy_body].
  destruct (networkFirstNavigation_fallback self_origin net' req active Hdown) as [-> _].
  rewrite Hmatch. reflexivity.
Qed.

Lemma precached_shell_served_offline_witness :
  is_Some (all_answered
             (answers app_origin (always (page "shell")) (length (fetch_log empty_world))
                      PRECACHE_ASSETS)) /\
  always (page "shell") (S (length (fetch_log empty_world)))
         (request_of_path app_origin ENTRY_HTML) = Some (page "shell") /\
  method navigation = "GET" /\
  mode navigation = "navigate" /\
  offline (length (fetch_log
             (snd (activate (snd (install app_origin (always (page "shell"))
                                    empty_world))))))
          navigation = None /\
  fst (on_fetch app_origin offline navigation
         (snd (activate (snd (install app_origin (always (page "shell")) empty_world)))))
    = [(NetworkFirstNavigation, Val (Resp (page "shell")))].
Proof.
  assert (is_Some (all_answered
             (answers app_origin (always (page "shell")) (length (fetch_log empty_world))
                      PRECACHE_ASSETS))) as Hall by (vm_compute; eauto).
  split; [exact Hall|]. split; [reflexivity|]. split; [reflexivity|].
  split; [reflexivity|]. split; [reflexivity|].
  exact (precached_shell_served_offline app_origin (always (page "shell")) offline
           navigation empty_world (page "shell") Hall eq_refl eq_refl eq_refl eq_refl).
Defined.

(** X10: installation writes under the keys of the manifest paths in the
    current store and nowhere else: every entry of another store, and every
    entry of the current store under another key, is after installation what
    it was before, whether installation succeeded or failed. *)
Theorem install_touches_manifest_only (self_origin : string) (net : Network)
    (w : World) (name key : string) :
  name <> CACHE_NAME \/ ~ In key (map (key_of_path self_origin) PRECACHE_ASSETS) ->
  store_entry name key (storage (snd (install self_origin net w))) =
  store_entry name key (storage w).
Proof.
  intros Hother.
  destruct (install_effect self_origin net w) as (_ & _ & _ & _ & Hf & He).
  cbv zeta in He.
  destruct (String.eqb_spec name CACHE_NAME) as [-> | Hne]; [|apply Hf; exact Hne].
  destruct Hother as [Hne | Hkey]; [congruence|].
  rewrite He. destruct (all_answered _) as [rs|]; [|reflexivity].
  rewrite last_written_absent by exact Hkey. reflexivity.
Qed.

Lemma install_touches_manifest_only_witness :
  (CACHE_NAME <> CACHE_NAME \/
   ~ In (key_of script_request) (map (key_of_path app_origin) PRECACHE_ASSETS)) /\
  store_entry CACHE_NAME (key_of script_request)
    (storage (snd (install app_origin (always (page "shell"))
                     (cached_world (key_of script_request) (page "v1")))))
  = store_entry CACHE_NAME (key_of script_request)
      (storage (cached_world (key_of script_request) (page "v1"))).
Proof.
  assert (CACHE_NAME <> CACHE_NAME \/
          ~ In (key_of script_request) (map (key_of_path app_origin) PRECACHE_ASSETS))
    as H.
  { right. vm_compute. intros H.
    repeat (destruct H as [H|H]; [discriminate H|]). exact H. }
  split; [exact H|].
  exact (install_touches_manifest_only app_origin (always (page "shell"))
           (cached_world (key_of script_request) (page "v1"))
           CACHE_NAME (key_of script_request) H).
Defined.

(** X11: installation never deletes a store: the names listed afterwards are
    those listed before, followed by the current name if its store had to be
    created.  It asks the runtime to skip waiting whether or not precaching
    succeeds, and it does not claim the clients. *)
Theorem install_keeps_stores (self_origin : string) (net : Network) (w : World) :
  let w' := snd (install self_origin net w) in
  (map fst (storage w') = map fst (storage w) \/
   (~ In CACHE_NAME (map fst (storage w)) /\
    map fst (storage w') = map fst (storage w) ++ [CACHE_NAME])) /\
  skip_waiting w' = true /\
  clients_claimed w' = clients_claimed w.
Proof.
  intros w'. subst w'.
  destruct (install_effect self_origin net w) as (_ & Hs & Hc & Hn & _).
  auto.
Qed.

(** X12: once installation has succeeded, [cacheFirst] answers a request for
    the URL of any manifest path (the three icons are the ones routed to it)
    with the response fetched at installation, makes no fetch, and leaves the
    world as it is, whatever the state of the network. *)
Theorem precached_assets_need_no_network (self_origin : string) (net : Network)
    (w : World) (rs : list Response) :
  all_answered (answers self_origin net (length (fetch_log w)) PRECACHE_ASSETS) = Some rs ->
  let installed := snd (install self_origin net w) in
  Forall2 (fun p r =>
             forall net' req, url req = resolve_path self_origin p ->
               settle (cacheFirst net' req) installed = (Val (Resp r), installed))
          PRECACHE_ASSETS rs.
Proof.
  intros Hall installed.
  eapply Forall2_impl; [exact (install_entries self_origin net w rs Hall)|]. cbn beta.
  intros p r Hentry net' req Hurl. apply cacheFirst_hit.
  unfold key_of. rewrite Hurl. exact Hentry.
Qed.

Lemma precached_assets_need_no_network_witness :
  all_answered (answers app_origin (always (page "asset")) (length (fetch_log empty_world))
                        PRECACHE_ASSETS)
    = Some [page "asset"; page "asset"; page "asset"; page "asset"; page "asset";
            page "asset"] /\
  Forall2 (fun p r =>
             forall net' req, url req = resolve_path app_origin p ->
               settle (cacheFirst net' req)
                      (snd (install app_origin (always (page "asset")) empty_world))
               = (Val (Resp r), snd (install app_origin (always (page "asset")) empty_world)))
          PRECACHE_ASSETS
          [page "asset"; page "asset"; page "asset"; page "asset"; page "asset";
           page "asset"].
Proof.
  split; [reflexivity|].
  exact (precached_assets_need_no_network app_origin (always (page "asset")) empty_world
           _ eq_refl).
Defined.

(** ** The two suffix tests of the router *)

(** X13: no path passes both suffix tests of the router, so the order in
    which the listener tries the stylesheet/script test and the image test
    decides nothing: a same-origin request is never a candidate for both
    [staleWhileRevalidate] and [cacheFirst]. *)
Theorem suffix_tests_exclusive (path : string) :
  test re_css_js path && test re_image path = false.
Proof.
  destruct (test re_css_js path) eqn:Hcss; [|reflexivity].
  destruct (test re_image path) eqn:Himg; [|reflexivity].
  exfalso. unfold re_css_js in Hcss. unfold re_image in Himg.
  apply test_extension in Hcss. apply test_extension in Himg.
  destruct Hcss as (a & Ha & Hsa). destruct Himg as (b & Hb & Hsb).
  pose proof (suffix_weak_total _ _ _ Hsa Hsb) as Htotal.
  cbn [In] in Ha, Hb.
  repeat (destruct Ha as [<- | Ha]; [|]); try (destruct Ha);
    repeat (destruct Hb as [<- | Hb]; [|]); try (destruct Hb);
    destruct Htotal as [H | H];
    refine (bool_decide_eq_false_1 (suffix _ _) _ H); vm_compute; reflexivity.
Qed.
